(** * Verification of the MiDaS depth-estimation endpoint

    Shallow embedding of [server/model-midas/app.py]: the lazily loaded
    model handle ([load_model]), the request handler ([predict]) and the
    numeric normalisation it performs on the resized prediction.

    External collaborators (PIL, torch.hub, the network, the PNG encoder)
    are not part of the repository; they appear as fields of a [World]
    record, a test double whose outcomes the theorems quantify over. *)

From Stdlib Require Import List String ZArith QArith Qround Qminmax.
From Stdlib Require Import Strings.Byte.
From Stdlib Require Import Lia Lqa Bool Arith.
Import ListNotations.

Set Implicit Arguments.

(** ** Arithmetic on array elements *)

Module Numeric.

Local Open Scope Q_scope.

(** A binary32 value: a finite number, an infinity or NaN.  The two zeros
    of binary32 are one value here; they differ only as divisors, and
    line 46 never divides by zero. *)
Inductive fval := Fin (q : Q) | PInf | NInf | NaN.

(** An operation on finite values is the exact operation, rounded, and an
    infinity when the rounded result lies beyond the largest finite value.
    [rnd] is the rounding with unbounded exponent and [fmax] the largest
    finite value; only the properties below are used, all of which
    IEEE-754 round-to-nearest has. *)
Class FloatOps := {
  rnd : Q -> Q;
  fmax : Q;
  rnd_monotone : forall x y, x <= y -> rnd x <= rnd y;
  rnd_zero : rnd 0 == 0;
  rnd_one : rnd 1 == 1;
  rnd_255 : rnd 255 == 255;
  fmax_255 : 255 <= fmax
}.

(** The largest finite binary32 value, (2^24 - 1) * 2^104. *)
Definition binary32_max : Q := 340282346638528859811704183484516925440.

(** No rounding error, binary32's range. *)
Definition exact_ops : FloatOps :=
  {| rnd := fun x => x;
     fmax := binary32_max;
     rnd_monotone := fun _ _ H => H;
     rnd_zero := Qeq_refl 0;
     rnd_one := Qeq_refl 1;
     rnd_255 := Qeq_refl 255;
     fmax_255 := ltac:(discriminate) |}.

Section Ops.
Context {F : FloatOps}.

(** The result of an operation whose exact value is [x]. *)
Definition round (x : Q) : fval :=
  if Qle_bool (rnd x) fmax
  then if Qle_bool (- fmax) (rnd x) then Fin (rnd x) else NInf
  else PInf.

(** [a - b] *)
Definition fsub (a b : fval) : fval :=
  match a, b with
  | NaN, _ | _, NaN => NaN
  | Fin x, Fin y => round (x - y)
  | Fin _, PInf => NInf
  | Fin _, NInf => PInf
  | PInf, PInf => NaN
  | PInf, _ => PInf
  | NInf, NInf => NaN
  | NInf, _ => NInf
  end.

(** An infinity times or divided by a finite [x]. *)
Definition signed_inf (positive : bool) (x : Q) : fval :=
  if Qle_bool 0 x
  then (if positive then PInf else NInf)
  else (if positive then NInf else PInf).

(** [a * b] *)
Definition fmul (a b : fval) : fval :=
  match a, b with
  | NaN, _ | _, NaN => NaN
  | Fin x, Fin y => round (x * y)
  | Fin x, PInf | PInf, Fin x =>
      if Qeq_bool x 0 then NaN else signed_inf true x
  | Fin x, NInf | NInf, Fin x =>
      if Qeq_bool x 0 then NaN else signed_inf false x
  | PInf, PInf | NInf, NInf => PInf
  | PInf, NInf | NInf, PInf => NInf
  end.

(** [a / b] *)
Definition fdiv (a b : fval) : fval :=
  match a, b with
  | NaN, _ | _, NaN => NaN
  | Fin x, Fin y =>
      if Qeq_bool y 0
      then (if Qeq_bool x 0 then NaN else signed_inf true x)
      else round (x / y)
  | Fin _, PInf | Fin _, NInf => Fin 0
  | PInf, Fin y => signed_inf true y
  | NInf, Fin y => signed_inf false y
  | PInf, PInf | PInf, NInf | NInf, PInf | NInf, NInf => NaN
  end.

(** [a <= b] and [a > b]; every comparison with NaN is false. *)
Definition fle (a b : fval) : bool :=
  match a, b with
  | NaN, _ | _, NaN => false
  | NInf, _ => true
  | _, PInf => true
  | Fin x, Fin y => Qle_bool x y
  | _, _ => false
  end.

Definition fgt (a b : fval) : bool :=
  match a, b with
  | NaN, _ | _, NaN => false
  | _, _ => negb (fle a b)
  end.

(** The literal [1e-6] of line 45.  The double nearest to 10^-6 lies about
    4.5e-23 below it and no binary32 value lies in between, so a binary32
    spread compares the same way with either. *)
Definition eps : Q := 1 # 1000000.

(** numpy's [minimum] and [maximum] of two elements: NaN wins. *)
Definition minimum (a b : fval) : fval :=
  match a, b with
  | NaN, _ | _, NaN => NaN
  | _, _ => if fle a b then a else b
  end.

Definition maximum (a b : fval) : fval :=
  match a, b with
  | NaN, _ | _, NaN => NaN
  | _, _ => if fle a b then b else a
  end.

(** [pred.min()] and [pred.max()]: numpy raises [ValueError] on an empty
    array, hence the [option]. *)
Definition np_min (a : list fval) : option fval :=
  match a with
  | [] => None
  | x :: t => Some (fold_left minimum t x)
  end.

Definition np_max (a : list fval) : option fval :=
  match a with
  | [] => None
  | x :: t => Some (fold_left maximum t x)
  end.

(** Truncation toward zero. *)
Definition Qtrunc (x : Q) : Z := Z.quot (Qnum x) (Zpos (Qden x)).

(** [.astype('uint8')] on one element, as numpy's C conversion behaves on
    x86-64: the value is truncated to a 32-bit integer of which the low
    byte is kept; NaN, the infinities and values beyond 32 bits give the
    integer -2^31, whose low byte is 0. *)
Definition astype_uint8 (v : fval) : Z :=
  match v with
  | Fin q =>
      let t := Qtrunc q in
      if ((- 2 ^ 31 <=? t) && (t <? 2 ^ 31))%Z then (t mod 256)%Z else 0%Z
  | PInf | NInf | NaN => 0%Z
  end.

(** Lines 44-48 of [predict], on the flattened element list:
<<
    minv, maxv = pred.min(), pred.max()
    if maxv - minv > 1e-6:
        norm = (pred - minv) / (maxv - minv)
    else:
        norm = pred * 0.0
>> *)
Definition normalize (pred : list fval) : option (list fval) :=
  match np_min pred, np_max pred with
  | Some minv, Some maxv =>
      if fgt (fsub maxv minv) (Fin eps)
      then Some (map (fun v => fdiv (fsub v minv) (fsub maxv minv)) pred)
      else Some (map (fun v => fmul v (Fin 0)) pred)
  | _, _ => None
  end.

(** Line 49: [(norm * 255.0).astype('uint8')]. *)
Definition to_depth (norm : list fval) : list Z :=
  map (fun n => astype_uint8 (fmul n (Fin 255))) norm.

(** Lines 44-49 together. *)
Definition depth_values (pred : list fval) : option (list Z) :=
  match normalize pred with
  | Some norm => Some (to_depth norm)
  | None => None
  end.

(** [pred] holds finite values only, of which [m] is the least and [M]
    the greatest. *)
Definition finite_range (pred : list fval) (m M : Q) : Prop :=
  In (Fin m) pred /\ In (Fin M) pred /\
  forall v, In v pred -> exists q, v = Fin q /\ m <= q /\ q <= M.

(** The statement that the depth map always spans the full byte range. *)
Definition full_range_claim (pred : list fval) : Prop :=
  forall m M, finite_range pred m M -> eps < rnd (M - m) ->
  exists out, depth_values pred = Some out /\
    (forall i q, nth_error pred i = Some (Fin q) -> q == m ->
                 nth_error out i = Some 0%Z) /\
    (forall i q, nth_error pred i = Some (Fin q) -> q == M ->
                 nth_error out i = Some 255%Z).


End Ops.

(** Finite values whose spread lies beyond the binary32 range. *)
Definition wide_prediction : list fval :=
  [Fin 300000000000000000000000000000000000000;
   Fin (- 300000000000000000000000000000000000000);
   Fin 0;
   Fin 100000000000000000000000000000000000000].

End Numeric.

(** ** The request handler and the model handle *)

Module Midas.

Import Numeric.

Local Open Scope string_scope.
Local Open Scope list_scope.
Local Open Scope nat_scope.

(** *** Exceptions *)

(** A Python exception, as far as the handler can see it: its class name
    and [str(e)]. *)
Record exn := { exn_type : string; exn_msg : string }.

Definition res (E A : Type) : Type := (E + A)%type.

Definition rbind {E A B} (c : res E A) (k : A -> res E B) : res E B :=
  match c with
  | inl e => inl e
  | inr a => k a
  end.

Notation "x <- c ;; k" := (rbind c (fun x => k))
  (at level 61, c at next level, right associativity).

(** Where in [predict] an exception was raised.  The tag is bookkeeping of
    the model (Python keeps it in the traceback); line 55 receives only the
    exception. *)
Inductive phase := Ingest | Load | Preprocess | Forward | Postprocess.

Definition failure : Type := (phase * exn)%type.

Definition at_phase {A} (p : phase) (c : res exn A) : res failure A :=
  match c with
  | inl e => inl (p, e)
  | inr a => inr a
  end.

(** *** PIL images *)

Inductive mode :=
  | M1 | L | LA | P | RGB | RGBA | CMYK | YCbCr | LAB | HSV | I32 | F32.

Definition bands (m : mode) : nat :=
  match m with
  | M1 | L | P | I32 | F32 => 1
  | LA => 2
  | RGB | YCbCr | LAB | HSV => 3
  | RGBA | CMYK => 4
  end.

(** [im_size] is PIL's [size]: (width, height). *)
Record image := {
  im_mode : mode;
  im_size : nat * nat;
  im_data : list Z
}.

(** *** Tensors and arrays *)

Record ndarray (A : Type) := {
  shape : list nat;
  data : list A
}.

Definition tensor : Type := ndarray fval.

(** [t.unsqueeze(k)]: a new axis of length 1 at position [k]. *)
Definition unsqueeze (k : nat) (t : tensor) : res exn tensor :=
  if (k <=? List.length (shape t))%nat
  then inr {| shape := firstn k (shape t) ++ 1%nat :: skipn k (shape t);
              data := data t |}
  else inl {| exn_type := "IndexError";
              exn_msg := "Dimension out of range" |}.

(** [t.squeeze()] without argument: every axis of length 1 is removed. *)
Definition squeeze (t : tensor) : tensor :=
  {| shape := filter (fun d => negb (d =? 1)%nat) (shape t);
     data := data t |}.

Definition network : Type := tensor -> res exn tensor.
Definition transform_fn : Type := image -> res exn tensor.

(** *** Uploaded files *)

(** A file of the multipart body as the handler gets it: the stream
    object, of which only its [repr] (class and address, different for
    every request) and its content matter here. *)
Record file_storage := {
  stream_repr : string;
  stream_bytes : list byte
}.

(** *** The collaborators *)

(** Decoder, model provider, resampling kernel and encoder.  The provider's
    answers depend on how many loads were attempted before, so a transient
    failure is a provider that fails at attempt 0 and succeeds at 1. *)
Record World := {
  (** [Image.open(f.stream)]; the message of a decoding error names the
      stream object *)
  image_open : file_storage -> res exn image;
  (** the pixel conversion inside [Image.convert] *)
  convert_data : mode -> mode -> list Z -> list Z;
  (** [torch.hub.load("intel-isl/MiDaS", "MiDaS_small")], by attempt *)
  hub_load_model : nat -> res exn network;
  (** [model.eval(); model.to(device)], by attempt *)
  model_to_device : nat -> res exn unit;
  (** [torch.hub.load("intel-isl/MiDaS", "transforms").small_transform] *)
  hub_load_transforms : nat -> res exn transform_fn;
  (** the values computed by bicubic resampling to (height, width) *)
  bicubic : tensor -> nat -> nat -> res exn (list fval);
  (** [pil.save(buf, format='PNG')] *)
  png_save : image -> res exn (list byte)
}.

(** *** Process state: the two globals and the provider's load counters *)

Record state := {
  model : option network;
  transform : option transform_fn;
  model_loads : nat;
  transform_loads : nat
}.

Definition cold : state :=
  {| model := None; transform := None; model_loads := 0; transform_loads := 0 |}.

Definition M (A : Type) : Type := state -> res exn A * state.

Definition mret {A} (a : A) : M A := fun s => (inr a, s).

Definition mbind {A B} (c : M A) (k : A -> M B) : M B :=
  fun s => match c s with
           | (inl e, s') => (inl e, s')
           | (inr a, s') => k a s'
           end.

Notation "x <~ c ;; k" := (mbind c (fun x => k))
  (at level 61, c at next level, right associativity).
Notation "c ;;; k" := (mbind c (fun _ => k))
  (at level 61, right associativity).

(** Line 19, right-hand side: one provider call, counted. *)
Definition call_hub_model (w : World) : M network :=
  fun s => (hub_load_model w (model_loads s),
            {| model := model s; transform := transform s;
               model_loads := S (model_loads s);
               transform_loads := transform_loads s |}).

(** Line 19, the assignment to the global. *)
Definition set_model (n : network) : M unit :=
  fun s => (inr tt,
            {| model := Some n; transform := transform s;
               model_loads := model_loads s;
               transform_loads := transform_loads s |}).

(** Lines 20-22. *)
Definition bind_device (w : World) : M unit :=
  fun s => (model_to_device w (pred (model_loads s)), s).

(** Line 23. *)
Definition call_hub_transforms (w : World) : M transform_fn :=
  fun s => (hub_load_transforms w (transform_loads s),
            {| model := model s; transform := transform s;
               model_loads := model_loads s;
               transform_loads := S (transform_loads s) |}).

(** Line 24. *)
Definition set_transform (t : transform_fn) : M unit :=
  fun s => (inr tt,
            {| model := model s; transform := Some t;
               model_loads := model_loads s;
               transform_loads := transform_loads s |}).

(** Lines 14-24. *)
Definition load_model (w : World) : M unit :=
  fun s =>
    match model s with
    | Some _ => mret tt s
    | None =>
        (n <~ call_hub_model w ;;
         set_model n ;;;
         bind_device w ;;;
         t <~ call_hub_transforms w ;;
         set_transform t) s
    end.

(** *** Lines 31-32: decoding the upload *)

(** [img.convert(m)]: PIL converts from every mode of [mode] to RGB; the
    size is kept. *)
Definition convert (w : World) (img : image) (m : mode) : image :=
  {| im_mode := m;
     im_size := im_size img;
     im_data := convert_data w (im_mode img) m (im_data img) |}.

(** [Image.open(f.stream).convert('RGB')] *)
Definition ingest (w : World) (f : file_storage) : res exn image :=
  img <- image_open w f ;;
  inr (convert w img RGB).

(** *** Lines 34-50: from the RGB image to the depth image *)

(** Calling a global that may still hold [None]. *)
Definition call {A B} (f : option (A -> res exn B)) (a : A) : res exn B :=
  match f with
  | Some g => g a
  | None => inl {| exn_type := "TypeError";
                   exn_msg := "'NoneType' object is not callable" |}
  end.

(** [torch.nn.functional.interpolate(t, size=size, mode='bicubic',
    align_corners=False)]: bicubic mode takes a 4-D input (batch, channel,
    height, width) and replaces the two spatial axes by [size]. *)
Definition interpolate (w : World) (t : tensor) (size : nat * nat)
  : res exn tensor :=
  match shape t with
  | [n; c; _; _] =>
      d <- bicubic w t (fst size) (snd size) ;;
      inr {| shape := [n; c; fst size; snd size]; data := d |}
  | _ => inl {| exn_type := "NotImplementedError";
                exn_msg := "bicubic mode needs 4D input" |}
  end.

(** [Image.fromarray] on a uint8 array: the mode comes from the length of
    the third axis, the size is (shape[1], shape[0]), and a 1-D array is a
    column of width 1. *)
Definition fromarray (a : ndarray Z) : res exn image :=
  match shape a with
  | [] => inl {| exn_type := "IndexError";
                 exn_msg := "tuple index out of range" |}
  | [n] => inr {| im_mode := L; im_size := (1, n); im_data := data a |}
  | [h; wd] => inr {| im_mode := L; im_size := (wd, h); im_data := data a |}
  | [h; wd; 2] => inr {| im_mode := LA; im_size := (wd, h); im_data := data a |}
  | [h; wd; 3] => inr {| im_mode := RGB; im_size := (wd, h); im_data := data a |}
  | [h; wd; 4] => inr {| im_mode := RGBA; im_size := (wd, h); im_data := data a |}
  | _ => inl {| exn_type := "TypeError";
                exn_msg := "Cannot handle this data type" |}
  end.

(** Lines 44-49 on an array; [min] of an empty array raises. *)
Definition normalize_array {F : FloatOps} (a : tensor) : res exn (ndarray Z) :=
  match depth_values (data a) with
  | Some v => inr {| shape := shape a; data := v |}
  | None => inl {| exn_type := "ValueError";
                   exn_msg := "zero-size array to reduction operation" |}
  end.

(** Lines 34-50.  [s] is read for the two globals only. *)
Definition depth_image {F : FloatOps} (w : World) (s : state) (img : image)
  : res failure image :=
  t <- at_phase Preprocess (call (transform s) img) ;;
  input_batch <- at_phase Preprocess (unsqueeze 0 t) ;;
  prediction <- at_phase Forward (call (model s) input_batch) ;;
  p1 <- at_phase Postprocess (unsqueeze 1 prediction) ;;
  resized <- at_phase Postprocess
               (interpolate w p1 (snd (im_size img), fst (im_size img))) ;;
  depth_img <- at_phase Postprocess (normalize_array (squeeze resized)) ;;
  at_phase Postprocess (fromarray depth_img).

(** *** The endpoint *)

(** [request.files]: a multi-dict, first value of a key wins. *)
Record request := { files : list (string * file_storage) }.

Definition lookup_file (name : string) (fs : list (string * file_storage))
  : option file_storage :=
  match find (fun p => String.eqb (fst p) name) fs with
  | Some p => Some (snd p)
  | None => None
  end.

Inductive body :=
  | Json_error (msg : string)   (* {"error": msg} *)
  | Png (bytes : list byte).

Record response := {
  status : nat;
  mimetype : string;
  content : body
}.

Definition jsonify_error (code : nat) (msg : string) : response :=
  {| status := code; mimetype := "application/json";
     content := Json_error msg |}.

Definition send_file (buf : list byte) : response :=
  {| status := 200; mimetype := "image/png"; content := Png buf |}.

(** Lines 29-54, the body of the [try]. *)
Definition predict_try {F : FloatOps} (w : World) (req : request) (s : state)
  : res failure response * state :=
  match lookup_file "image" (files req) with
  | None =>
      (inr (jsonify_error 400
              "no image field (use multipart form field named 'image')"), s)
  | Some f =>
      match ingest w f with
      | inl e => (inl (Ingest, e), s)
      | inr img =>
          match load_model w s with
          | (inl e, s1) => (inl (Load, e), s1)
          | (inr _, s1) =>
              (d <- depth_image w s1 img ;;
               buf <- at_phase Postprocess (png_save w d) ;;
               inr (send_file buf), s1)
          end
      end
  end.

(** Lines 27-56: [except Exception as e] turns every exception into a 500
    carrying [str(e)]. *)
Definition predict {F : FloatOps} (w : World) (req : request) (s : state)
  : response * state :=
  match predict_try w req s with
  | (inr r, s') => (r, s')
  | (inl (_, e), s') => (jsonify_error 500 (exn_msg e), s')
  end.

(** Requests served one after the other by one process. *)
Fixpoint serve {F : FloatOps} (w : World) (reqs : list request) (s : state)
  : list response * state :=
  match reqs with
  | [] => ([], s)
  | r :: rest =>
      let (resp, s1) := predict w r s in
      let (resps, s2) := serve w rest s1 in
      (resp :: resps, s2)
  end.

(** [load_model] called [n] times in a row; exceptions are dropped as the
    handler drops them. *)
Fixpoint load_model_times (w : World) (n : nat) (s : state) : state :=
  match n with
  | O => s
  | S k => load_model_times w k (snd (load_model w s))
  end.

(** The provider answers the first load. *)
Definition provider_ok (w : World) : Prop :=
  (exists n, hub_load_model w 0 = inr n) /\
  model_to_device w 0 = inr tt /\
  (exists t, hub_load_transforms w 0 = inr t).

(** The file field is present and its bytes decode. *)
Definition decodable (w : World) (r : request) : Prop :=
  exists f img, lookup_file "image" (files r) = Some f /\
                image_open w f = inr img.

(** *** The failure kinds of the specification *)




(** *** Threads *)

(** Several requests in flight in one process share the two globals.  A
    thread runs [load_model] one statement at a time and then reads the
    handle at line 34; the scheduler may switch threads between any two
    statements.  The interpreter may also switch inside a statement, so
    every schedule here is an execution of the program, not conversely. *)
Inductive pc :=
  | Line16                      (* if model is not None: return *)
  | Line19                      (* model = torch.hub.load(...) *)
  | Line20                      (* model.eval(); model.to(device) *)
  | Line23                      (* midas_transforms = torch.hub.load(...) *)
  | Line24 (t : transform_fn)   (* transform = midas_transforms.small_transform *)
  | Line34                      (* transform(img) *)
  | Served                      (* the request went on with a complete handle *)
  | Raised (e : exn).

Definition step_thread (w : World) (p : pc) (s : state) : pc * state :=
  match p with
  | Line16 =>
      match model s with
      | Some _ => (Line34, s)
      | None => (Line19, s)
      end
  | Line19 =>
      match call_hub_model w s with
      | (inl e, s') => (Raised e, s')
      | (inr n, s') => (Line20, snd (set_model n s'))
      end
  | Line20 =>
      match bind_device w s with
      | (inl e, s') => (Raised e, s')
      | (inr _, s') => (Line23, s')
      end
  | Line23 =>
      match call_hub_transforms w s with
      | (inl e, s') => (Raised e, s')
      | (inr t, s') => (Line24 t, s')
      end
  | Line24 t => (Line34, snd (set_transform t s))
  | Line34 =>
      match transform s with
      | Some _ => (Served, s)
      | None => (Raised {| exn_type := "TypeError";
                           exn_msg := "'NoneType' object is not callable" |}, s)
      end
  | Served => (Served, s)
  | Raised e => (Raised e, s)
  end.

Record process := {
  globals : state;
  threads : list pc
}.

Fixpoint set_nth {A} (i : nat) (a : A) (l : list A) : list A :=
  match l, i with
  | [], _ => []
  | _ :: t, O => a :: t
  | x :: t, S j => x :: set_nth j a t
  end.

(** Thread [i] runs one statement. *)
Definition step (w : World) (i : nat) (c : process) : process :=
  match nth_error (threads c) i with
  | None => c
  | Some p =>
      let (p', s') := step_thread w p (globals c) in
      {| globals := s'; threads := set_nth i p' (threads c) |}
  end.

(** A schedule names the thread that runs next. *)
Definition run (w : World) (sched : list nat) (c : process) : process :=
  fold_left (fun c i => step w i c) sched c.

(** [n] first requests against a cold handle. *)
Definition cold_process (n : nat) : process :=
  {| globals := cold; threads := repeat Line16 n |}.

Definition finished (p : pc) : bool :=
  match p with
  | Served | Raised _ => true
  | _ => false
  end.

Definition served (p : pc) : bool :=
  match p with
  | Served => true
  | _ => false
  end.

(** No overlap: each thread runs its six statements before the next starts. *)
Definition serial (n : nat) : list nat :=
  flat_map (fun i => repeat i 6) (seq 0 n).

(** Whether a thread may still ask the provider for the network (it has
    not executed line 19 yet), and for the transforms (line 23). *)
Definition may_load_model (p : pc) : nat :=
  match p with
  | Line16 | Line19 => 1
  | _ => 0
  end.

Definition may_load_transforms (p : pc) : nat :=
  match p with
  | Line16 | Line19 | Line20 | Line23 => 1
  | _ => 0
  end.

(** The thread is past line 19. *)
Definition past_line19 (p : pc) : bool :=
  match p with
  | Line20 | Line23 | Line24 _ | Line34 | Served => true
  | Line16 | Line19 | Raised _ => false
  end.

(** One thread running [k] statements without interruption. *)
Fixpoint run_alone (w : World) (k : nat) (p : pc) (s : state) : pc * state :=
  match k with
  | O => (p, s)
  | S k' => let (p', s') := step_thread w p s in run_alone w k' p' s'
  end.

(** The guarantee a mutual-exclusion guard would give: whatever the
    schedule, once every request is through, the provider was asked once
    and every request found a complete handle. *)
Definition one_load_all_served (w : World) (n : nat) (sched : list nat) : Prop :=
  let c := run w sched (cold_process n) in
  forallb finished (threads c) = true ->
  model_loads (globals c) = 1 /\
  transform_loads (globals c) = 1 /\
  forallb served (threads c) = true.


(** The depth map has the size of the input image and one channel. *)
Definition same_size_one_channel (img d : image) : Prop :=
  im_size d = im_size img /\ bands (im_mode d) = 1.

(** *** Test doubles *)

Definition some_bytes : list byte := [x89; x50; x4e; x47].

Definition some_file : file_storage :=
  {| stream_repr := "<_io.BytesIO object at 0x7f3a5c1d2e80>";
     stream_bytes := some_bytes |}.

Definition upload : request := {| files := [("image", some_file)] |}.


Definition rgb_image (wd h : nat) : image :=
  {| im_mode := RGB; im_size := (wd, h); im_data := [] |}.

Definition ramp (n : nat) : list fval :=
  map (fun k => Fin (inject_Z (Z.of_nat k))) (seq 0 n).

(** A network whose native output is 2 x 2, whatever the input. *)
Definition small_net : network :=
  fun _ => inr {| shape := [1; 2; 2]; data := ramp 4 |}.

Definition small_transform : transform_fn :=
  fun _ => inr {| shape := [3; 2; 2]; data := ramp 12 |}.

(** Every collaborator works; uploads decode to [img]. *)
Definition good_world (img : image) : World :=
  {| image_open := fun _ => inr img;
     convert_data := fun _ _ d => d;
     hub_load_model := fun _ => inr small_net;
     model_to_device := fun _ => inr tt;
     hub_load_transforms := fun _ => inr small_transform;
     bicubic := fun _ h wd => inr (ramp (h * wd));
     png_save := fun _ => inr some_bytes |}.

(** The first download of the transforms times out, later ones work. *)
Definition flaky_world : World :=
  {| image_open := fun _ => inr (rgb_image 4 3);
     convert_data := fun _ _ d => d;
     hub_load_model := fun _ => inr small_net;
     model_to_device := fun _ => inr tt;
     hub_load_transforms := fun k =>
       match k with
       | O => inl {| exn_type := "URLError"; exn_msg := "timed out" |}
       | S _ => inr small_transform
       end;
     bicubic := fun _ h wd => inr (ramp (h * wd));
     png_save := fun _ => inr some_bytes |}.




(** The first download of the network fails, later ones work. *)
Definition retry_world : World :=
  {| image_open := fun _ => inr (rgb_image 4 3);
     convert_data := fun _ _ d => d;
     hub_load_model := fun k =>
       match k with
       | O => inl {| exn_type := "URLError"; exn_msg := "timed out" |}
       | S _ => inr small_net
       end;
     model_to_device := fun _ => inr tt;
     hub_load_transforms := fun _ => inr small_transform;
     bicubic := fun _ h wd => inr (ramp (h * wd));
     png_save := fun _ => inr some_bytes |}.

(** Uploads do not decode. *)
Definition garbage_world : World :=
  {| image_open := fun f =>
       inl {| exn_type := "UnidentifiedImageError";
              exn_msg := String.append "cannot identify image file "
                                       (stream_repr f) |};
     convert_data := fun _ _ d => d;
     hub_load_model := fun _ => inr small_net;
     model_to_device := fun _ => inr tt;
     hub_load_transforms := fun _ => inr small_transform;
     bicubic := fun _ h wd => inr (ramp (h * wd));
     png_save := fun _ => inr some_bytes |}.

(** The state after a complete load from [good_world]. *)
Definition loaded : state :=
  {| model := Some small_net; transform := Some small_transform;
     model_loads := 1; transform_loads := 1 |}.

End Midas.

(** ** Facts about the normalisation *)

Module NumericFacts.

Import Numeric.
Local Open Scope Q_scope.

Section WithOps.
Context {F : FloatOps}.

Lemma rnd_proper (x y : Q) : x == y -> rnd x == rnd y.
Proof.
  intros E. apply Qle_antisym; apply rnd_monotone; rewrite E; apply Qle_refl.
Qed.

Lemma rnd_nonneg (x : Q) : 0 <= x -> 0 <= rnd x.
Proof.
  intros H. apply Qle_trans with (rnd 0).
  - rewrite rnd_zero. apply Qle_refl.
  - now apply rnd_monotone.
Qed.

Lemma fmax_nonneg : 0 <= fmax.
Proof.
  apply Qle_trans with 255; [discriminate | apply fmax_255].
Qed.

Lemma Qle_bool_false (x y : Q) : Qle_bool x y = false <-> y < x.
Proof.
  rewrite <- not_true_iff_false, Qle_bool_iff.
  split; [apply Qnot_le_lt | apply Qlt_not_le].
Qed.

Lemma round_fin (x : Q) :
  - fmax <= rnd x -> rnd x <= fmax -> round x = Fin (rnd x).
Proof.
  intros Lo Hi. unfold round.
  apply Qle_bool_iff in Lo, Hi. now rewrite Hi, Lo.
Qed.

Lemma round_pinf (x : Q) : fmax < rnd x -> round x = PInf.
Proof.
  intros H. unfold round. apply Qle_bool_false in H. now rewrite H.
Qed.

Lemma round_nonneg_cases (x : Q) :
  0 <= x ->
  (rnd x <= fmax /\ round x = Fin (rnd x)) \/
  (fmax < rnd x /\ round x = PInf).
Proof.
  intros H. destruct (Qlt_le_dec fmax (rnd x)) as [Hov|Hin].
  - right. split; [exact Hov | now apply round_pinf].
  - left. split; [exact Hin|]. apply round_fin; [|exact Hin].
    pose proof (rnd_nonneg H). pose proof fmax_nonneg. lra.
Qed.

Lemma fold_min_finite (t : list fval) (x : Q) :
  (forall v, In v t -> exists q, v = Fin q) ->
  exists r, fold_left minimum t (Fin x) = Fin r /\
            In (Fin r) (Fin x :: t) /\
            forall q, In (Fin q) (Fin x :: t) -> r <= q.
Proof.
  revert x. induction t as [|y t IH]; intros x Hfin.
  - exists x. simpl. split; [reflexivity|]. split; [now left|].
    intros q [[= <-]|[]]. apply Qle_refl.
  - destruct (Hfin y (or_introl eq_refl)) as [q0 ->].
    assert (Ht : forall v, In v t -> exists q, v = Fin q)
      by (intros v Hv; apply Hfin; now right).
    simpl. destruct (Qle_bool x q0) eqn:C.
    + destruct (IH x Ht) as (r & E & Hin & Hle). exists r.
      split; [exact E|]. split.
      * destruct Hin as [Hin|Hin]; [now left | now right; right].
      * apply Qle_bool_iff in C.
        intros q [[= <-]|[[= <-]|Hq]].
        -- apply Hle. now left.
        -- apply Qle_trans with x; [apply Hle; now left | exact C].
        -- apply Hle. now right.
    + destruct (IH q0 Ht) as (r & E & Hin & Hle). exists r.
      split; [exact E|]. split.
      * destruct Hin as [Hin|Hin]; [now right; left | now right; right].
      * apply Qle_bool_false in C.
        intros q [[= <-]|[[= <-]|Hq]].
        -- apply Qle_trans with q0; [apply Hle; now left | lra].
        -- apply Hle. now left.
        -- apply Hle. now right.
Qed.

Lemma fold_max_finite (t : list fval) (x : Q) :
  (forall v, In v t -> exists q, v = Fin q) ->
  exists r, fold_left maximum t (Fin x) = Fin r /\
            In (Fin r) (Fin x :: t) /\
            forall q, In (Fin q) (Fin x :: t) -> q <= r.
Proof.
  revert x. induction t as [|y t IH]; intros x Hfin.
  - exists x. simpl. split; [reflexivity|]. split; [now left|].
    intros q [[= <-]|[]]. apply Qle_refl.
  - destruct (Hfin y (or_introl eq_refl)) as [q0 ->].
    assert (Ht : forall v, In v t -> exists q, v = Fin q)
      by (intros v Hv; apply Hfin; now right).
    simpl. destruct (Qle_bool x q0) eqn:C.
    + destruct (IH q0 Ht) as (r & E & Hin & Hle). exists r.
      split; [exact E|]. split.
      * destruct Hin as [Hin|Hin]; [now right; left | now right; right].
      * apply Qle_bool_iff in C.
        intros q [[= <-]|[[= <-]|Hq]].
        -- apply Qle_trans with q0; [exact C | apply Hle; now left].
        -- apply Hle. now left.
        -- apply Hle. now right.
    + destruct (IH x Ht) as (r & E & Hin & Hle). exists r.
      split; [exact E|]. split.
      * destruct Hin as [Hin|Hin]; [now left | now right; right].
      * apply Qle_bool_false in C.
        intros q [[= <-]|[[= <-]|Hq]].
        -- apply Hle. now left.
        -- apply Qle_trans with x; [lra | apply Hle; now left].
        -- apply Hle. now right.
Qed.

Lemma finite_range_ordered (pred : list fval) (m M : Q) :
  finite_range pred m M -> m <= M.
Proof.
  intros (_ & HM & Hall). destruct (Hall _ HM) as (q & [= <-] & H & _).
  exact H.
Qed.

Lemma finite_range_nth (pred : list fval) (m M : Q) (i : nat) (q : Q) :
  finite_range pred m M -> nth_error pred i = Some (Fin q) ->
  m <= q /\ q <= M.
Proof.
  intros (_ & _ & Hall) H.
  destruct (Hall _ (nth_error_In _ _ H)) as (q' & [= <-] & B). exact B.
Qed.

Lemma np_min_finite (pred : list fval) (m M : Q) :
  finite_range pred m M ->
  exists m', np_min pred = Some (Fin m') /\ m' == m.
Proof.
  intros (Hm & HM & Hall). destruct pred as [|x t]; [contradiction|].
  destruct (Hall x (or_introl eq_refl)) as (q0 & -> & _).
  destruct (@fold_min_finite t q0) as (r & E & Hin & Hle).
  { intros v Hv. destruct (Hall v (or_intror Hv)) as (q & -> & _). eauto. }
  exists r. simpl. rewrite E. split; [reflexivity|].
  apply Qle_antisym; [now apply Hle|].
  destruct (Hall _ Hin) as (q & [= <-] & H & _). exact H.
Qed.

Lemma np_max_finite (pred : list fval) (m M : Q) :
  finite_range pred m M ->
  exists M', np_max pred = Some (Fin M') /\ M' == M.
Proof.
  intros (Hm & HM & Hall). destruct pred as [|x t]; [contradiction|].
  destruct (Hall x (or_introl eq_refl)) as (q0 & -> & _).
  destruct (@fold_max_finite t q0) as (r & E & Hin & Hle).
  { intros v Hv. destruct (Hall v (or_intror Hv)) as (q & -> & _). eauto. }
  exists r. simpl. rewrite E. split; [reflexivity|].
  apply Qle_antisym; [|now apply Hle].
  destruct (Hall _ Hin) as (q & [= <-] & _ & H). exact H.
Qed.

Lemma Qle_bool_compat (x x' y : Q) :
  x == x' -> Qle_bool x y = Qle_bool x' y.
Proof.
  intros E. destruct (Qle_bool x y) eqn:A, (Qle_bool x' y) eqn:B; auto.
  - apply Qle_bool_iff in A. apply Qle_bool_false in B. rewrite E in A. lra.
  - apply Qle_bool_false in A. apply Qle_bool_iff in B. rewrite E in A. lra.
Qed.

Lemma eps_below_fmax : eps < fmax.
Proof.
  apply Qlt_le_trans with 255; [reflexivity | apply fmax_255].
Qed.

(** The three ways lines 44-48 go on an array of finite values. *)
Lemma normalize_finite (pred : list fval) (m M : Q) :
  finite_range pred m M ->
  (rnd (M - m) <= eps /\
   normalize pred = Some (map (fun v => fmul v (Fin 0)) pred))
  \/
  (eps < rnd (M - m) /\ rnd (M - m) <= fmax /\
   exists m' M', m' == m /\ M' == M /\
     normalize pred =
       Some (map (fun v => fdiv (fsub v (Fin m')) (Fin (rnd (M' - m')))) pred))
  \/
  (fmax < rnd (M - m) /\
   exists m', m' == m /\
     normalize pred = Some (map (fun v => fdiv (fsub v (Fin m')) PInf) pred)).
Proof.
  intros R. pose proof (finite_range_ordered R) as Hord.
  destruct (np_min_finite R) as (m' & Emin & Hm).
  destruct (np_max_finite R) as (M' & Emax & HM).
  assert (ED : rnd (M' - m') == rnd (M - m))
    by (apply rnd_proper; rewrite Hm, HM; reflexivity).
  assert (Hpos : 0 <= M' - m') by (rewrite Hm, HM; lra).
  unfold normalize. rewrite Emin, Emax. cbn [fsub].
  destruct (round_nonneg_cases Hpos) as [[Hin ->]|[Hov ->]].
  - cbn [fgt fle]. destruct (Qle_bool (rnd (M' - m')) eps) eqn:C; cbn [negb].
    + left. apply Qle_bool_iff in C. rewrite ED in C. auto.
    + right. left. apply Qle_bool_false in C. rewrite ED in C, Hin.
      split; [exact C|]. split; [exact Hin|]. exists m', M'. auto.
  - right. right. rewrite ED in Hov. split; [exact Hov|].
    exists m'. auto.
Qed.

Lemma flat_elem (q : Q) : exists r, fmul (Fin q) (Fin 0) = Fin r /\ r == 0.
Proof.
  assert (Z0 : rnd (q * 0) == 0).
  { transitivity (rnd 0); [|apply rnd_zero]. apply rnd_proper. ring. }
  exists (rnd (q * 0)). split; [|exact Z0]. cbn [fmul].
  pose proof fmax_nonneg. apply round_fin; rewrite Z0; lra.
Qed.

Lemma sub_elem (q m' : Q) :
  m' <= q ->
  (rnd (q - m') <= fmax /\ fsub (Fin q) (Fin m') = Fin (rnd (q - m'))) \/
  (fmax < rnd (q - m') /\ fsub (Fin q) (Fin m') = PInf).
Proof.
  intros H. cbn [fsub]. apply round_nonneg_cases. lra.
Qed.

Lemma rescale_elem (q m' M' : Q) :
  m' <= q -> q <= M' -> eps < rnd (M' - m') -> rnd (M' - m') <= fmax ->
  fdiv (fsub (Fin q) (Fin m')) (Fin (rnd (M' - m')))
    = Fin (rnd (rnd (q - m') / rnd (M' - m'))) /\
  0 <= rnd (rnd (q - m') / rnd (M' - m')) /\
  rnd (rnd (q - m') / rnd (M' - m')) <= 1.
Proof.
  intros Lo Hi Hd Hin.
  set (d := rnd (M' - m')) in *. set (x := rnd (q - m')).
  assert (Hd0 : 0 < d) by (unfold eps in Hd; lra).
  assert (Hx0 : 0 <= x) by (apply rnd_nonneg; lra).
  assert (Hxd : x <= d) by (apply rnd_monotone; lra).
  assert (Hq0 : 0 <= x / d) by (apply Qle_shift_div_l; [exact Hd0 | lra]).
  assert (Hq1 : x / d <= 1) by (apply Qle_shift_div_r; [exact Hd0 | lra]).
  assert (R0 : 0 <= rnd (x / d)) by now apply rnd_nonneg.
  assert (R1 : rnd (x / d) <= 1).
  { apply Qle_trans with (rnd 1); [now apply rnd_monotone|].
    rewrite rnd_one. apply Qle_refl. }
  split; [|split; assumption].
  pose proof fmax_nonneg as Hf. pose proof fmax_255 as Hf'.
  assert (E : fsub (Fin q) (Fin m') = Fin x).
  { cbn [fsub]. apply round_fin; fold x; lra. }
  rewrite E. cbn [fdiv].
  destruct (Qeq_bool d 0) eqn:Z0.
  { apply Qeq_bool_iff in Z0. rewrite Z0 in Hd0. discriminate. }
  apply round_fin; lra.
Qed.

Lemma overflow_elem (q m' : Q) :
  m' <= q ->
  fdiv (fsub (Fin q) (Fin m')) PInf
    = if Qle_bool (rnd (q - m')) fmax then Fin 0 else NaN.
Proof.
  intros H. destruct (sub_elem H) as [[Hin ->]|[Hov ->]].
  - apply Qle_bool_iff in Hin. now rewrite Hin.
  - apply Qle_bool_false in Hov. now rewrite Hov.
Qed.

Lemma Qtrunc_floor (x : Q) : 0 <= x -> Qtrunc x = Qfloor x.
Proof.
  destruct x as [n d]. unfold Qle, Qtrunc, Qfloor. simpl. intros H.
  apply Z.quot_div_nonneg; lia.
Qed.

(** Line 49 on a value between 0 and 1: the byte is the integer part of
    the scaled value, which lies between 0 and 255. *)
Lemma pixel_elem (r : Q) :
  0 <= r -> r <= 1 ->
  astype_uint8 (fmul (Fin r) (Fin 255)) = Qfloor (rnd (r * 255)) /\
  0 <= rnd (r * 255) /\ rnd (r * 255) <= 255 /\
  (0 <= Qfloor (rnd (r * 255)) <= 255)%Z.
Proof.
  intros H0 H1.
  assert (A : 0 <= rnd (r * 255)) by (apply rnd_nonneg; lra).
  assert (B : rnd (r * 255) <= 255).
  { apply Qle_trans with (rnd 255); [apply rnd_monotone; lra|].
    rewrite rnd_255. apply Qle_refl. }
  assert (C : (0 <= Qfloor (rnd (r * 255)) <= 255)%Z).
  { split.
    - change 0%Z with (Qfloor 0). now apply Qfloor_resp_le.
    - change 255%Z with (Qfloor 255). now apply Qfloor_resp_le. }
  split; [|auto]. cbn [fmul].
  pose proof fmax_nonneg as Hf. pose proof fmax_255 as Hf'.
  rewrite round_fin by lra. cbn [astype_uint8].
  rewrite (Qtrunc_floor A).
  replace ((- 2 ^ 31 <=? Qfloor (rnd (r * 255)))%Z) with true
    by (symmetry; apply Z.leb_le; lia).
  replace ((Qfloor (rnd (r * 255)) <? 2 ^ 31)%Z) with true
    by (symmetry; apply Z.ltb_lt; lia).
  cbn [andb]. apply Z.mod_small. lia.
Qed.

Lemma pixel_zero (r : Q) :
  r == 0 -> astype_uint8 (fmul (Fin r) (Fin 255)) = 0%Z.
Proof.
  intros E.
  destruct (@pixel_elem r) as (-> & _); [rewrite E; discriminate ..|].
  assert (Z0 : rnd (r * 255) == 0).
  { transitivity (rnd 0); [|apply rnd_zero]. apply rnd_proper.
    rewrite E. ring. }
  rewrite Z0. reflexivity.
Qed.

Lemma pixel_one (r : Q) :
  r == 1 -> astype_uint8 (fmul (Fin r) (Fin 255)) = 255%Z.
Proof.
  intros E.
  destruct (@pixel_elem r) as (-> & _); [rewrite E; discriminate ..|].
  assert (Z0 : rnd (r * 255) == 255).
  { transitivity (rnd 255); [|apply rnd_255]. apply rnd_proper.
    rewrite E. ring. }
  rewrite Z0. reflexivity.
Qed.



Lemma to_depth_nth (norm : list fval) (i : nat) (n : fval) :
  nth_error norm i = Some n ->
  nth_error (to_depth norm) i = Some (astype_uint8 (fmul n (Fin 255))).
Proof.
  intros H. unfold to_depth. rewrite nth_error_map, H. reflexivity.
Qed.

Lemma depth_values_of (pred norm : list fval) :
  normalize pred = Some norm -> depth_values pred = Some (to_depth norm).
Proof.
  intros E. unfold depth_values. now rewrite E.
Qed.

(** The flat branch. *)
Lemma flat_branch (pred : list fval) (m M : Q) :
  finite_range pred m M -> rnd (M - m) <= eps ->
  exists norm, normalize pred = Some norm /\
    List.length norm = List.length pred /\
    forall i q, nth_error pred i = Some (Fin q) ->
      exists r, nth_error norm i = Some (Fin r) /\ r == 0.
Proof.
  intros R Hle.
  destruct (normalize_finite R) as [[_ E]|[(Hgt & _)|(Hov & _)]].
  - eexists. split; [exact E|]. split; [apply length_map|].
    intros i q Hq. destruct (flat_elem q) as (r & Er & Hr).
    exists r. split; [|exact Hr]. rewrite nth_error_map, Hq. cbn [option_map].
    now rewrite Er.
  - exfalso. apply (Qlt_not_le _ _ Hgt Hle).
  - exfalso. pose proof eps_below_fmax. lra.
Qed.

(** The rescaling branch when the spread is finite. *)
Lemma rescaled_branch (pred : list fval) (m M : Q) :
  finite_range pred m M -> eps < rnd (M - m) -> rnd (M - m) <= fmax ->
  exists norm, normalize pred = Some norm /\
    List.length norm = List.length pred /\
    forall i q, nth_error pred i = Some (Fin q) ->
      exists r, nth_error norm i = Some (Fin r) /\
                r == rnd (rnd (q - m) / rnd (M - m)) /\
                0 <= r /\ r <= 1.
Proof.
  intros R Hgt Hin.
  destruct (normalize_finite R)
    as [[Hle _]|[(_ & _ & m' & M' & Hm & HM & E)|(Hov & _)]].
  - exfalso. apply (Qlt_not_le _ _ Hgt Hle).
  - eexists. split; [exact E|]. split; [apply length_map|].
    intros i q Hq. destruct (finite_range_nth _ R Hq) as [Lo Hi].
    assert (X1 : rnd (q - m') == rnd (q - m))
      by (apply rnd_proper; rewrite Hm; reflexivity).
    assert (X2 : rnd (M' - m') == rnd (M - m))
      by (apply rnd_proper; rewrite Hm, HM; reflexivity).
    destruct (@rescale_elem q m' M') as (Er & R0 & R1);
      [rewrite Hm; exact Lo | rewrite HM; exact Hi
       | rewrite X2; exact Hgt | rewrite X2; exact Hin |].
    exists (rnd (rnd (q - m') / rnd (M' - m'))).
    split; [|split; [|split; assumption]].
    + rewrite nth_error_map, Hq. cbn [option_map]. now rewrite Er.
    + apply rnd_proper. rewrite X1, X2. reflexivity.
  - exfalso. apply (Qlt_not_le _ _ Hov Hin).
Qed.

(** The rescaling branch when the spread overflows. *)
Lemma overflow_branch (pred : list fval) (m M : Q) :
  finite_range pred m M -> fmax < rnd (M - m) ->
  exists norm, normalize pred = Some norm /\
    List.length norm = List.length pred /\
    forall i q, nth_error pred i = Some (Fin q) ->
      nth_error norm i
        = Some (if Qle_bool (rnd (q - m)) fmax then Fin 0 else NaN).
Proof.
  intros R Hov.
  destruct (normalize_finite R)
    as [[Hle _]|[(_ & Hin & _)|(_ & m' & Hm & E)]].
  - exfalso. pose proof eps_below_fmax. lra.
  - exfalso. apply (Qlt_not_le _ _ Hov Hin).
  - eexists. split; [exact E|]. split; [apply length_map|].
    intros i q Hq. destruct (finite_range_nth _ R Hq) as [Lo Hi].
    assert (X1 : rnd (q - m') == rnd (q - m))
      by (apply rnd_proper; rewrite Hm; reflexivity).
    rewrite nth_error_map, Hq. cbn [option_map]. f_equal.
    rewrite overflow_elem by (rewrite Hm; exact Lo).
    now rewrite (Qle_bool_compat _ X1).
Qed.

Lemma finite_range_entries (pred : list fval) (m M : Q) (i : nat) (v : fval) :
  finite_range pred m M -> nth_error pred i = Some v -> exists q, v = Fin q.
Proof.
  intros (_ & _ & Hall) H.
  destruct (Hall _ (nth_error_In _ _ H)) as (q & -> & _). eauto.
Qed.


(** C9, amended: on a prediction of finite values whose computed spread
    [M - m] is finite and exceeds 1e-6, a pixel holding the least value
    becomes 0, a pixel holding the greatest value becomes 255, and both
    bytes occur in the depth map. *)
Theorem depth_spans_full_range (pred : list fval) (m M : Q) :
  finite_range pred m M ->
  eps < rnd (M - m) -> rnd (M - m) <= fmax ->
  exists out,
    depth_values pred = Some out /\
    (forall i q, nth_error pred i = Some (Fin q) -> q == m ->
                 nth_error out i = Some 0%Z) /\
    (forall i q, nth_error pred i = Some (Fin q) -> q == M ->
                 nth_error out i = Some 255%Z) /\
    In 0%Z out /\ In 255%Z out.
Proof.
  intros R Hgt Hin.
  destruct (rescaled_branch R Hgt Hin) as (norm & E & _ & Hn).
  assert (Hd0 : 0 < rnd (M - m)) by (unfold eps in Hgt; lra).
  exists (to_depth norm).
  assert (A0 : forall i q, nth_error pred i = Some (Fin q) -> q == m ->
                 nth_error (to_depth norm) i = Some 0%Z).
  { intros i q Hq Eq. destruct (Hn i q Hq) as (r & Hr & Er & _).
    rewrite (to_depth_nth _ _ Hr). f_equal. apply pixel_zero.
    rewrite Er. transitivity (rnd 0); [|apply rnd_zero]. apply rnd_proper.
    assert (X : rnd (q - m) == 0).
    { transitivity (rnd 0); [|apply rnd_zero]. apply rnd_proper.
      rewrite Eq. ring. }
    rewrite X. unfold Qdiv. ring. }
  assert (A1 : forall i q, nth_error pred i = Some (Fin q) -> q == M ->
                 nth_error (to_depth norm) i = Some 255%Z).
  { intros i q Hq Eq. destruct (Hn i q Hq) as (r & Hr & Er & _).
    rewrite (to_depth_nth _ _ Hr). f_equal. apply pixel_one.
    rewrite Er. transitivity (rnd 1); [|apply rnd_one]. apply rnd_proper.
    assert (X : rnd (q - m) == rnd (M - m))
      by (apply rnd_proper; rewrite Eq; reflexivity).
    rewrite X. field. intros Z0. rewrite Z0 in Hd0. discriminate. }
  split; [now apply depth_values_of|]. split; [exact A0|].
  split; [exact A1|].
  destruct R as (Hm & HM & _).
  apply In_nth_error in Hm, HM. destruct Hm as [i Hi], HM as [j Hj].
  split.
  - eapply nth_error_In. apply (A0 _ _ Hi). reflexivity.
  - eapply nth_error_In. apply (A1 _ _ Hj). reflexivity.
Qed.


End WithOps.

Lemma wide_prediction_range :
  finite_range wide_prediction
    (- 300000000000000000000000000000000000000)
    300000000000000000000000000000000000000.
Proof.
  split; [right; left; reflexivity|]. split; [left; reflexivity|].
  intros v [<-|[<-|[<-|[<-|[]]]]]; eexists; (split; [reflexivity|]);
    split; discriminate.
Qed.

(** C9, as stated, fails: the values of [wide_prediction] are finite and
    their spread exceeds 1e-6, but the spread overflows binary32, the
    quotient at the greatest value is NaN and its byte is 0. *)
Lemma full_range_counterexample :
  ~ full_range_claim (F := exact_ops) wide_prediction.
Proof.
  intros H.
  destruct (H _ _ wide_prediction_range eq_refl) as (out & E & _ & Hmax).
  specialize (Hmax 0%nat _ eq_refl (Qeq_refl _)).
  vm_compute in E. injection E as <-. discriminate Hmax.
Qed.


(** The theorems at concrete arrays. *)

Lemma small_range : finite_range [Fin 1; Fin 2; Fin 3] 1 3.
Proof.
  split; [left; reflexivity|]. split; [right; right; left; reflexivity|].
  intros v [<-|[<-|[<-|[]]]]; eexists; (split; [reflexivity|]);
    split; discriminate.
Qed.




Lemma depth_spans_full_range_witness :
  finite_range [Fin 1; Fin 2; Fin 3] 1 3 /\
  eps < @rnd exact_ops (3 - 1) /\
  @rnd exact_ops (3 - 1) <= @fmax exact_ops /\
  exists out,
    depth_values (F := exact_ops) [Fin 1; Fin 2; Fin 3] = Some out /\
    nth_error out 0 = Some 0%Z /\ nth_error out 2 = Some 255%Z.
Proof.
  assert (Hgt : eps < @rnd exact_ops (3 - 1)) by reflexivity.
  assert (Hin : @rnd exact_ops (3 - 1) <= @fmax exact_ops)
    by discriminate.
  split; [exact small_range|]. split; [exact Hgt|]. split; [exact Hin|].
  destruct (@depth_spans_full_range exact_ops _ _ _ small_range Hgt Hin)
    as (out & Ed & H0 & H1 & _).
  exists out. split; [exact Ed|]. split.
  - apply (H0 0%nat 1); reflexivity.
  - apply (H1 2%nat 3); reflexivity.
Defined.

End NumericFacts.

(** ** Facts about the model handle and the endpoint *)

Module MidasFacts.

Import Numeric Midas.
Local Open Scope string_scope.
Local Open Scope list_scope.
Local Open Scope nat_scope.

(** *** The model handle *)

Lemma load_model_loaded (w : World) (s : state) (n : network) :
  model s = Some n -> load_model w s = (inr tt, s).
Proof.
  intros H. unfold load_model. now rewrite H.
Qed.

(** A call that returns leaves the network in place. *)
Lemma load_model_returns (w : World) (s s' : state) :
  load_model w s = (inr tt, s') -> exists n, model s' = Some n.
Proof.
  unfold load_model. destruct (model s) as [n|] eqn:E.
  - intros [= <-]. now exists n.
  - unfold mbind, call_hub_model, set_model, bind_device,
      call_hub_transforms, set_transform. simpl.
    destruct (hub_load_model w (model_loads s)) as [e|n]; [discriminate|].
    destruct (model_to_device w (model_loads s)) as [e|[]]; [discriminate|].
    destruct (hub_load_transforms w (transform_loads s)) as [e|t];
      [discriminate|].
    intros [= <-]. now exists n.
Qed.

(** The network could not be fetched: nothing but the counter changes, so
    the next call asks the provider again. *)
Lemma load_model_fetch_failed (w : World) (s : state) (e : exn) :
  model s = None -> hub_load_model w (model_loads s) = inl e ->
  fst (load_model w s) = inl e /\
  model (snd (load_model w s)) = None /\
  transform (snd (load_model w s)) = transform s.
Proof.
  intros Hm He. unfold load_model. rewrite Hm.
  unfold mbind, call_hub_model. rewrite He. simpl. auto.
Qed.

Lemma load_model_cold (w : World) (n : network) (t : transform_fn) :
  hub_load_model w 0 = inr n -> model_to_device w 0 = inr tt ->
  hub_load_transforms w 0 = inr t ->
  load_model w cold =
    (inr tt, {| model := Some n; transform := Some t;
                model_loads := 1; transform_loads := 1 |}).
Proof.
  intros Hn Hd Ht. unfold load_model, cold. simpl.
  unfold mbind, call_hub_model, set_model, bind_device,
    call_hub_transforms, set_transform. simpl.
  rewrite Hn. simpl. rewrite Hd. simpl. rewrite Ht. reflexivity.
Qed.

Lemma load_model_times_loaded (w : World) (k : nat) (s : state) (n : network) :
  model s = Some n -> load_model_times w k s = s.
Proof.
  intros H. induction k as [|k IH]; simpl; [reflexivity|].
  rewrite (load_model_loaded w s H). exact IH.
Qed.

(** What a request does to the state is what its [load_model] does. *)
Lemma predict_state {F : FloatOps} (w : World) (r : request) (s : state) :
  decodable w r -> snd (predict w r s) = snd (load_model w s).
Proof.
  intros (f & img & Hf & Hi). unfold predict, predict_try, ingest.
  rewrite Hf, Hi. simpl.
  destruct (load_model w s) as [[e|u] s1]; simpl; [reflexivity|].
  destruct (depth_image w s1 (convert w img RGB)) as [[p e]|d]; simpl;
    [reflexivity|].
  destruct (png_save w d) as [e|buf]; reflexivity.
Qed.

Lemma serve_loaded {F : FloatOps} (w : World) (reqs : list request)
    (s : state) (n : network) :
  model s = Some n -> Forall (decodable w) reqs -> snd (serve w reqs s) = s.
Proof.
  intros Hm Hall. induction Hall as [|r rest Hr _ IH]; simpl; [reflexivity|].
  pose proof (predict_state s Hr) as Hs.
  rewrite (load_model_loaded w s Hm) in Hs. simpl in Hs.
  destruct (predict w r s) as [resp s1]. simpl in Hs. subst s1.
  destruct (serve w rest s) as [resps s2]. simpl in *. exact IH.
Qed.

(** C4: with a provider that answers, any number [k >= 1] of successive
    calls of [load_model] from the cold state, and any non-empty sequence
    of requests that reach line 33, ask the provider for the network once
    and for the transforms once; and after a call of [load_model] that
    returned, a further call returns without changing anything. *)
Theorem load_model_idempotent {F : FloatOps} (w : World) :
  provider_ok w ->
  (forall k, 1 <= k ->
     model_loads (load_model_times w k cold) = 1 /\
     transform_loads (load_model_times w k cold) = 1) /\
  (forall reqs, reqs <> [] -> Forall (decodable w) reqs ->
     model_loads (snd (serve w reqs cold)) = 1 /\
     transform_loads (snd (serve w reqs cold)) = 1) /\
  (forall s s', load_model w s = (inr tt, s') ->
     load_model w s' = (inr tt, s')).
Proof.
  intros ((n & Hn) & Hd & (t & Ht)).
  pose proof (load_model_cold w Hn Hd Ht) as Hc.
  split; [|split].
  - intros [|k] Hk; [lia|]. simpl. rewrite Hc. simpl.
    erewrite load_model_times_loaded; [auto | reflexivity].
  - intros [|r rest] Hne Hall; [congruence|].
    inversion Hall as [|? ? Hr Hrest]; subst. simpl.
    pose proof (predict_state cold Hr) as Hs. rewrite Hc in Hs. simpl in Hs.
    destruct (predict w r cold) as [resp s1]. simpl in Hs. subst s1.
    erewrite (surjective_pairing (serve w rest _)).
    erewrite serve_loaded; [simpl; auto | reflexivity | exact Hrest].
  - intros s s' H. destruct (load_model_returns w s H) as [m Hm].
    now apply load_model_loaded with m.
Qed.

Lemma upload_decodable_flaky : decodable flaky_world upload.
Proof.
  exists some_file, (rgb_image 4 3). split; reflexivity.
Qed.

(** C6: with a provider whose first download of the transforms fails and
    whose later ones would succeed, the first [load_model] raises and
    leaves the network assigned but no transform; from then on
    [load_model] returns at line 17 without asking the provider again,
    and every request fails at line 34. *)
Theorem partial_load_latches :
  let s1 := snd (load_model flaky_world cold) in
  fst (load_model flaky_world cold)
    = inl {| exn_type := "URLError"; exn_msg := "timed out" |} /\
  model s1 = Some small_net /\
  transform s1 = None /\
  hub_load_transforms flaky_world (transform_loads s1) = inr small_transform /\
  (forall k, load_model_times flaky_world k s1 = s1) /\
  (forall k, snd (serve (F := exact_ops) flaky_world (repeat upload k) s1) = s1) /\
  fst (predict (F := exact_ops) flaky_world upload s1)
    = jsonify_error 500 "'NoneType' object is not callable".
Proof.
  cbv zeta. repeat split.
  - intros k. now apply load_model_times_loaded with small_net.
  - intros k. apply serve_loaded with small_net; [reflexivity|].
    induction k; simpl; constructor; auto using upload_decodable_flaky.
Qed.

(** *** The size of the depth map *)

(** With at least two rows and two columns, and a network that returns one
    map per image, the depth map has the size of the input and mode L. *)
Lemma depth_image_same_size {F : FloatOps} (w : World) (s : state)
    (img d : image) (tr : transform_fn) (net : network)
    (t prediction : tensor) (h wd : nat) :
  transform s = Some tr -> tr img = inr t ->
  model s = Some net ->
  net {| shape := 1 :: shape t; data := data t |} = inr prediction ->
  shape prediction = [1; h; wd] ->
  2 <= fst (im_size img) -> 2 <= snd (im_size img) ->
  depth_image w s img = inr d ->
  same_size_one_channel img d.
Proof.
  intros Htr Ht Hnet Hp Hs HW HH. unfold same_size_one_channel, depth_image.
  rewrite Htr, Hnet. simpl. rewrite Ht. simpl.
  unfold unsqueeze at 1. simpl. rewrite Hp. simpl.
  unfold unsqueeze. rewrite Hs. simpl.
  unfold interpolate. simpl.
  destruct (bicubic w _ (snd (im_size img)) (fst (im_size img))) as [e|vals];
    simpl; [discriminate|].
  unfold normalize_array, squeeze. simpl.
  destruct (im_size img) as [W H]. simpl in *.
  destruct H as [|[|H]]; [lia|lia|]. destruct W as [|[|W]]; [lia|lia|].
  simpl. destruct (depth_values vals) as [v|]; simpl; [|discriminate].
  intros [= <-]. split; reflexivity.
Qed.

(** C1: an image 5 wide and 1 high is a valid input; line 41 squeezes the
    resized prediction of shape (1, 1, 1, 5) down to shape (5,), and the
    depth map comes out 1 wide and 5 high.  For a 1 x 1 image the array is
    0-dimensional and the request ends with status 500. *)
Theorem squeeze_loses_unit_axis :
  (exists d,
     depth_image (F := exact_ops) (good_world (rgb_image 5 1)) loaded
       (rgb_image 5 1) = inr d /\
     im_size (rgb_image 5 1) = (5, 1) /\
     im_size d = (1, 5) /\
     ~ same_size_one_channel (rgb_image 5 1) d) /\
  fst (predict (F := exact_ops) (good_world (rgb_image 5 1)) upload cold)
    = send_file some_bytes /\
  fst (predict (F := exact_ops) (good_world (rgb_image 1 1)) upload cold)
    = jsonify_error 500 "tuple index out of range".
Proof.
  split; [|split; reflexivity].
  eexists. split; [vm_compute; reflexivity|].
  split; [reflexivity|]. split; [reflexivity|].
  intros [Hsz _]. discriminate Hsz.
Qed.

(** *** Failures and status codes *)







(** *** Threads *)

Lemma set_nth_same {A} (l : list A) (i : nat) (a : A) :
  nth_error l i = Some a -> set_nth i a l = l.
Proof.
  revert i. induction l as [|x l IH]; intros [|i]; simpl; try discriminate.
  - now intros [= ->].
  - intros H. now rewrite IH.
Qed.

Lemma set_nth_twice {A} (l : list A) (i : nat) (a b : A) :
  set_nth i a (set_nth i b l) = set_nth i a l.
Proof.
  revert i. induction l as [|x l IH]; intros [|i]; simpl; auto.
  now rewrite IH.
Qed.

Lemma nth_error_set_nth {A} (l : list A) (i : nat) (a b : A) :
  nth_error l i = Some b -> nth_error (set_nth i a l) i = Some a.
Proof.
  revert i. induction l as [|x l IH]; intros [|i]; simpl; try discriminate; auto.
Qed.

Lemma set_nth_app {A} (l1 l2 : list A) (a b : A) :
  set_nth (List.length l1) a (l1 ++ b :: l2) = l1 ++ a :: l2.
Proof.
  induction l1 as [|x l1 IH]; simpl; [reflexivity|]. now rewrite IH.
Qed.

(** A thread that is scheduled [k] times in a row runs alone. *)
Lemma run_repeat (w : World) (k i : nat) (c : process) (p : pc) :
  nth_error (threads c) i = Some p ->
  run w (repeat i k) c =
    {| globals := snd (run_alone w k p (globals c));
       threads := set_nth i (fst (run_alone w k p (globals c))) (threads c) |}.
Proof.
  revert c p. induction k as [|k IH]; intros [g ts] p H; simpl in *.
  - now rewrite (set_nth_same _ _ H).
  - unfold run in *. unfold step at 2. simpl. rewrite H.
    destruct (step_thread w p g) as [p' g'] eqn:E.
    rewrite (IH _ p'); simpl.
    + now rewrite set_nth_twice.
    + now apply nth_error_set_nth with p.
Qed.

(** Run without interruption, a thread does what [load_model] does and
    arrives at line 34 exactly when [load_model] returns. *)
Lemma run_alone_load_model (w : World) (s : state) :
  exists k, k <= 5 /\
  run_alone w k Line16 s =
    (match fst (load_model w s) with
     | inl e => Raised e
     | inr _ => Line34
     end, snd (load_model w s)).
Proof.
  unfold load_model. destruct (model s) as [n|] eqn:Hm.
  { exists 1. split; [lia|]. simpl. now rewrite Hm. }
  exists 5. split; [lia|]. simpl. rewrite Hm.
  unfold mbind, call_hub_model, set_model, bind_device,
    call_hub_transforms, set_transform. simpl.
  destruct (hub_load_model w (model_loads s)) as [e|n]; simpl; [reflexivity|].
  destruct (model_to_device w (model_loads s)) as [e|[]]; simpl; [reflexivity|].
  destruct (hub_load_transforms w (transform_loads s)) as [e|t]; reflexivity.
Qed.

Lemma run_alone_loaded (w : World) (s : state) (n : network) (t : transform_fn) :
  model s = Some n -> transform s = Some t ->
  run_alone w 6 Line16 s = (Served, s).
Proof.
  intros Hm Ht. simpl. rewrite Hm. simpl. rewrite Ht. reflexivity.
Qed.

Lemma run_alone_cold (w : World) (n : network) (t : transform_fn) :
  hub_load_model w 0 = inr n -> model_to_device w 0 = inr tt ->
  hub_load_transforms w 0 = inr t ->
  run_alone w 6 Line16 cold =
    (Served, {| model := Some n; transform := Some t;
                model_loads := 1; transform_loads := 1 |}).
Proof.
  intros Hn Hd Ht. simpl. unfold call_hub_model, bind_device,
    call_hub_transforms. simpl. rewrite Hn. simpl. rewrite Hd. simpl.
  rewrite Ht. reflexivity.
Qed.

Lemma serial_from (w : World) (s : state) (n : network) (t : transform_fn)
    (m k : nat) :
  model s = Some n -> transform s = Some t ->
  run w (flat_map (fun i => repeat i 6) (seq k m))
    {| globals := s; threads := repeat Served k ++ repeat Line16 m |}
  = {| globals := s; threads := repeat Served (k + m) |}.
Proof.
  intros Hm Ht. revert k. induction m as [|m IH]; intros k.
  - simpl. now rewrite app_nil_r, Nat.add_0_r.
  - cbn [seq flat_map]. unfold run in *. rewrite fold_left_app.
    fold (run w (repeat k 6)
            {| globals := s;
               threads := repeat Served k ++ repeat Line16 (S m) |}).
    rewrite (@run_repeat w 6 k _ Line16).
    + cbn [globals threads]. rewrite (run_alone_loaded w s Hm Ht).
      cbn [fst snd repeat].
      pose proof (set_nth_app (repeat Served k) (repeat Line16 m)
                    Served Line16) as X.
      rewrite repeat_length in X. rewrite X. clear X.
      replace (repeat Served k ++ Served :: repeat Line16 m)
        with (repeat Served (S k) ++ repeat Line16 m).
      * rewrite IH. f_equal. f_equal. lia.
      * change (repeat Served (S k)) with (Served :: repeat Served k).
        rewrite repeat_cons, <- app_assoc. reflexivity.
    + cbn [threads repeat]. rewrite nth_error_app2; rewrite repeat_length;
        [|lia]. now rewrite Nat.sub_diag.
Qed.

(** C5, as stated, fails: the code has no guard.  With two first requests
    and a provider that works, one interleaving loads the network twice,
    and another lets the second request reach line 34 while [transform]
    is still [None]. *)
Lemma unguarded_race_counterexample :
  ~ one_load_all_served (good_world (rgb_image 4 3)) 2
      [0; 1; 0; 1; 0; 1; 0; 1; 0; 1; 0; 1] /\
  ~ one_load_all_served (good_world (rgb_image 4 3)) 2
      [0; 0; 1; 1; 0; 0; 0; 0].
Proof.
  split; intros H; specialize (H eq_refl); vm_compute in H;
    destruct H as (H1 & H2 & H3); discriminate.
Qed.

(** C5, amended: there is no mutual exclusion in [load_model]; when the
    first requests do not overlap, each running its statements before the
    next starts, the provider is asked once and every request finds the
    complete handle. *)
Theorem serial_requests_load_once (w : World) (n : nat) :
  provider_ok w -> 1 <= n ->
  forallb finished (threads (run w (serial n) (cold_process n))) = true /\
  one_load_all_served w n (serial n).
Proof.
  intros ((net & Hn) & Hd & (t & Ht)) Hpos.
  destruct n as [|m]; [lia|].
  assert (E : run w (serial (S m)) (cold_process (S m)) =
              {| globals := {| model := Some net; transform := Some t;
                               model_loads := 1; transform_loads := 1 |};
                 threads := repeat Served (S m) |}).
  { unfold serial, cold_process. cbn [seq flat_map].
    unfold run. rewrite fold_left_app.
    fold (run w (repeat 0 6)
            {| globals := cold; threads := repeat Line16 (S m) |}).
    rewrite (@run_repeat w 6 0 _ Line16) by reflexivity.
    cbn [globals threads]. rewrite (run_alone_cold w Hn Hd Ht).
    cbn [fst snd set_nth repeat].
    exact (@serial_from w
             {| model := Some net; transform := Some t;
                model_loads := 1; transform_loads := 1 |}
             net t m 1 eq_refl eq_refl). }
  assert (A : forall k, forallb served (repeat Served k) = true)
    by (induction k; simpl; auto).
  assert (B : forall k, forallb finished (repeat Served k) = true)
    by (induction k; simpl; auto).
  unfold one_load_all_served. rewrite E. cbn [globals threads model_loads
    transform_loads]. auto.
Qed.

(** *** The theorems at the test doubles *)

Lemma good_world_provider_ok (img : image) : provider_ok (good_world img).
Proof.
  split; [now exists small_net|]. split; [reflexivity|].
  now exists small_transform.
Qed.

Lemma load_model_idempotent_witness :
  provider_ok (good_world (rgb_image 4 3)) /\
  model_loads (load_model_times (good_world (rgb_image 4 3)) 3 cold) = 1 /\
  transform_loads (load_model_times (good_world (rgb_image 4 3)) 3 cold) = 1.
Proof.
  pose proof (good_world_provider_ok (rgb_image 4 3)) as P.
  split; [exact P|].
  apply (proj1 (load_model_idempotent (F := exact_ops) P) 3). lia.
Defined.



Lemma serial_requests_load_once_witness :
  provider_ok (good_world (rgb_image 4 3)) /\ 1 <= 3 /\
  forallb finished
    (threads (run (good_world (rgb_image 4 3)) (serial 3) (cold_process 3)))
    = true /\
  one_load_all_served (good_world (rgb_image 4 3)) 3 (serial 3).
Proof.
  pose proof (good_world_provider_ok (rgb_image 4 3)) as P.
  assert (H : 1 <= 3) by lia.
  split; [exact P|]. split; [exact H|].
  exact (serial_requests_load_once P H).
Defined.

End MidasFacts.

(** ** Further facts about lines 44-49 *)

Module ArrayFacts.

Import Numeric NumericFacts.
Local Open Scope Q_scope.

Section WithOps.
Context {F : FloatOps}.

(** What [norm] can hold on an array of finite values. *)
Lemma norm_entries (pred : list fval) (m M : Q) :
  finite_range pred m M ->
  exists norm, normalize pred = Some norm /\
    List.length norm = List.length pred /\
    forall i n, nth_error norm i = Some n ->
      (n = NaN /\ fmax < rnd (M - m)) \/
      (exists r, n = Fin r /\ 0 <= r /\ r <= 1).
Proof.
  intros R. pose proof eps_below_fmax as Hef.
  assert (Entry : forall (norm : list fval) i n,
            List.length norm = List.length pred ->
            nth_error norm i = Some n ->
            exists q, nth_error pred i = Some (Fin q)).
  { intros norm i n Hlen Hn.
    destruct (nth_error pred i) as [v|] eqn:Hv.
    - destruct (finite_range_entries _ R Hv) as [q ->]. eauto.
    - apply nth_error_None in Hv. rewrite <- Hlen in Hv.
      apply nth_error_None in Hv. congruence. }
  destruct (Qlt_le_dec eps (rnd (M - m))) as [Hgt|Hle];
    [destruct (Qlt_le_dec fmax (rnd (M - m))) as [Hov|Hin]|].
  - destruct (overflow_branch R Hov) as (norm & E & Hlen & Hn).
    exists norm. split; [exact E|]. split; [exact Hlen|].
    intros i n Hi. destruct (Entry _ _ _ Hlen Hi) as [q Hq].
    rewrite (Hn i q Hq) in Hi. injection Hi as <-.
    destruct (Qle_bool (rnd (q - m)) fmax).
    + right. exists 0. split; [reflexivity|]. split; discriminate.
    + left. auto.
  - destruct (rescaled_branch R Hgt Hin) as (norm & E & Hlen & Hn).
    exists norm. split; [exact E|]. split; [exact Hlen|].
    intros i n Hi. destruct (Entry _ _ _ Hlen Hi) as [q Hq].
    destruct (Hn i q Hq) as (r & Hr & _ & R0 & R1).
    rewrite Hr in Hi. injection Hi as <-. right. eauto.
  - destruct (flat_branch R Hle) as (norm & E & Hlen & Hn).
    exists norm. split; [exact E|]. split; [exact Hlen|].
    intros i n Hi. destruct (Entry _ _ _ Hlen Hi) as [q Hq].
    destruct (Hn i q Hq) as (r & Hr & Er).
    rewrite Hr in Hi. injection Hi as <-. right. exists r.
    split; [reflexivity|]. rewrite Er. split; discriminate.
Qed.

(** X1: on a prediction of finite values, the value that line 49
    converts to a byte is either a number between 0 and 255, and the byte
    is then its integer part, so nothing wraps around; or it is NaN,
    which happens only when the spread overflows, and the byte is 0. *)
Theorem depth_bytes_in_range (pred : list fval) (m M : Q) :
  finite_range pred m M ->
  exists norm out,
    normalize pred = Some norm /\ depth_values pred = Some out /\
    List.length out = List.length pred /\
    forall i n, nth_error norm i = Some n ->
      (n = NaN /\ fmax < rnd (M - m) /\ nth_error out i = Some 0%Z) \/
      (exists r, n = Fin r /\
                 0 <= rnd (r * 255) /\ rnd (r * 255) <= 255 /\
                 nth_error out i = Some (Qfloor (rnd (r * 255)))).
Proof.
  intros R. destruct (norm_entries R) as (norm & E & Hlen & Hn).
  exists norm, (to_depth norm).
  split; [exact E|]. split; [now apply depth_values_of|].
  split; [unfold to_depth; now rewrite length_map|].
  intros i n Hi. rewrite (to_depth_nth _ _ Hi).
  destruct (Hn i n Hi) as [[-> Hov]|(r & -> & R0 & R1)].
  - left. auto.
  - right. exists r. destruct (pixel_elem R0 R1) as (-> & A & B & _). auto.
Qed.

(** X2: lines 44-49 fail exactly on an empty array (the [min] of line 44
    raises); on every other array they produce a depth map. *)
Theorem depth_values_fail_iff_empty (pred : list fval) :
  depth_values pred = None <-> pred = [].
Proof.
  unfold depth_values, normalize. destruct pred as [|x t]; simpl.
  - split; reflexivity.
  - destruct (fgt _ (Fin eps)); split; discriminate.
Qed.

(** X3: on a prediction of finite values, every value of [norm] (lines
    45-48) is a number between 0 and 1, unless the spread overflows, in
    which case it may also be NaN. *)
Theorem normalized_in_unit_interval (pred : list fval) (m M : Q) :
  finite_range pred m M ->
  exists norm, normalize pred = Some norm /\
    forall n, In n norm ->
      (n = NaN /\ fmax < rnd (M - m)) \/
      (exists r, n = Fin r /\ 0 <= r /\ r <= 1).
Proof.
  intros R. destruct (norm_entries R) as (norm & E & _ & Hn).
  exists norm. split; [exact E|]. intros n Hin.
  apply In_nth_error in Hin. destruct Hin as [i Hi]. eauto.
Qed.

(** X4: a prediction whose values are finite and all equal gives an
    all-zero depth map. *)
Theorem constant_prediction_is_zero (pred : list fval) (c : Q) :
  pred <> [] -> (forall v, In v pred -> exists q, v = Fin q /\ q == c) ->
  depth_values pred = Some (map (fun _ => 0%Z) pred).
Proof.
  intros Hne Hc. destruct pred as [|x t]; [congruence|].
  destruct (Hc x (or_introl eq_refl)) as (q0 & -> & E0).
  assert (R : finite_range (Fin q0 :: t) q0 q0).
  { split; [now left|]. split; [now left|]. intros v Hv.
    destruct (Hc v Hv) as (q & -> & Eq). exists q.
    split; [reflexivity|]. rewrite Eq, E0. split; apply Qle_refl. }
  assert (Hle : rnd (q0 - q0) <= eps).
  { assert (Z0 : rnd (q0 - q0) == 0).
    { transitivity (rnd 0); [|apply rnd_zero]. apply rnd_proper. ring. }
    rewrite Z0. discriminate. }
  destruct (flat_branch R Hle) as (norm & E & Hlen & Hn).
  rewrite (depth_values_of _ E). f_equal.
  apply nth_error_ext. intros i.
  rewrite nth_error_map. unfold to_depth. rewrite nth_error_map.
  destruct (nth_error (Fin q0 :: t) i) as [v|] eqn:Hv.
  - destruct (finite_range_entries _ R Hv) as [q ->].
    destruct (Hn i q Hv) as (r & -> & Er). cbn [option_map].
    now rewrite (pixel_zero Er).
  - assert (Hnone : nth_error norm i = None).
    { apply nth_error_None. rewrite Hlen. now apply nth_error_None. }
    now rewrite Hnone.
Qed.

End WithOps.

Lemma depth_bytes_in_range_witness :
  finite_range [Fin 1; Fin 2; Fin 3] 1 3 /\
  exists norm out,
    normalize (F := exact_ops) [Fin 1; Fin 2; Fin 3] = Some norm /\
    depth_values (F := exact_ops) [Fin 1; Fin 2; Fin 3] = Some out /\
    List.length out = 3%nat.
Proof.
  split; [exact small_range|].
  destruct (@depth_bytes_in_range exact_ops _ _ _ small_range)
    as (norm & out & E & Ed & Hlen & _).
  exists norm, out. auto.
Defined.

Lemma normalized_in_unit_interval_witness :
  finite_range [Fin 1; Fin 2; Fin 3] 1 3 /\
  exists norm,
    normalize (F := exact_ops) [Fin 1; Fin 2; Fin 3] = Some norm /\
    forall n, In n norm ->
      (n = NaN /\ @fmax exact_ops < @rnd exact_ops (3 - 1)) \/
      (exists r, n = Fin r /\ 0 <= r /\ r <= 1).
Proof.
  split; [exact small_range|].
  exact (@normalized_in_unit_interval exact_ops _ _ _ small_range).
Defined.

Lemma constant_prediction_is_zero_witness :
  [Fin 7; Fin 7; Fin 7] <> [] /\
  (forall v, In v [Fin 7; Fin 7; Fin 7] -> exists q, v = Fin q /\ q == 7) /\
  depth_values (F := exact_ops) [Fin 7; Fin 7; Fin 7] = Some [0; 0; 0]%Z.
Proof.
  assert (Hne : [Fin 7; Fin 7; Fin 7] <> []) by discriminate.
  assert (Hc : forall v, In v [Fin 7; Fin 7; Fin 7] ->
                         exists q, v = Fin q /\ q == 7).
  { intros v [<-|[<-|[<-|[]]]]; exists 7; split; reflexivity. }
  split; [exact Hne|]. split; [exact Hc|].
  exact (@constant_prediction_is_zero exact_ops _ 7 Hne Hc).
Defined.

End ArrayFacts.

(** ** Further facts about [load_model] and [predict] *)

Module HandlerFacts.

Import Numeric Midas MidasFacts.
Local Open Scope string_scope.
Local Open Scope list_scope.
Local Open Scope nat_scope.

Lemma serve_cons_state {F : FloatOps} (w : World) (r : request)
    (rest : list request) (s : state) :
  snd (serve w (r :: rest) s) = snd (serve w rest (snd (predict w r s))).
Proof.
  simpl. destruct (predict w r s) as [resp s1]. simpl.
  now destruct (serve w rest s1).
Qed.

(** A request either leaves the state alone or does to it what its call
    of [load_model] does. *)
Lemma predict_state_cases {F : FloatOps} (w : World) (r : request) (s : state) :
  snd (predict w r s) = s \/ snd (predict w r s) = snd (load_model w s).
Proof.
  unfold predict, predict_try.
  destruct (lookup_file "image" (files r)) as [f|]; [|now left].
  destruct (ingest w f) as [e|img]; [now left|]. right.
  destruct (load_model w s) as [[e|u] s1]; simpl; [reflexivity|].
  destruct (depth_image w s1 img) as [[p e]|d]; simpl; [reflexivity|].
  destruct (png_save w d); reflexivity.
Qed.

(** X5: with at least two rows and two columns, and a network that
    returns one map per image, the depth image has the size of the input
    image and mode L, whatever the network's own resolution. *)
Theorem depth_image_keeps_size {F : FloatOps} (w : World) (s : state)
    (img d : image) (tr : transform_fn) (net : network)
    (t prediction : tensor) (h wd : nat) :
  transform s = Some tr -> tr img = inr t ->
  model s = Some net ->
  net {| shape := 1 :: shape t; data := data t |} = inr prediction ->
  shape prediction = [1; h; wd] ->
  2 <= fst (im_size img) -> 2 <= snd (im_size img) ->
  depth_image w s img = inr d ->
  im_size d = im_size img /\ im_mode d = L.
Proof.
  intros Htr Ht Hnet Hp Hs HW HH Hd.
  destruct (depth_image_same_size w s img Htr Ht Hnet Hp Hs HW HH Hd)
    as [Hsz _]. split; [exact Hsz|].
  revert Hd. unfold depth_image.
  rewrite Htr, Hnet. simpl. rewrite Ht. simpl.
  unfold unsqueeze at 1. simpl. rewrite Hp. simpl.
  unfold unsqueeze. rewrite Hs. simpl. unfold interpolate. simpl.
  destruct (bicubic w _ (snd (im_size img)) (fst (im_size img))) as [e|vals];
    simpl; [discriminate|].
  unfold normalize_array, squeeze. simpl.
  destruct (im_size img) as [W H]. simpl in *.
  destruct H as [|[|H]]; [lia|lia|]. destruct W as [|[|W]]; [lia|lia|].
  simpl. destruct (depth_values vals) as [v|]; simpl; [|discriminate].
  now intros [= <-].
Qed.

(** X6: images one pixel high or wide.  Line 41 drops the spatial axis of
    length 1 together with the batch and channel axes: a W x 1 image with
    W >= 2 yields a depth image 1 wide and W high, a 1 x H image with
    H >= 2 yields a 1 x H depth image, and for a 1 x 1 image lines 34-50
    never produce an image. *)
Theorem unit_axis_images {F : FloatOps} (w : World) (s : state) (img : image)
    (tr : transform_fn) (net : network) (t prediction : tensor) (h wd : nat) :
  transform s = Some tr -> tr img = inr t ->
  model s = Some net ->
  net {| shape := 1 :: shape t; data := data t |} = inr prediction ->
  shape prediction = [1; h; wd] ->
  (forall W d, 2 <= W -> im_size img = (W, 1) ->
     depth_image w s img = inr d -> im_size d = (1, W) /\ im_mode d = L) /\
  (forall H d, 2 <= H -> im_size img = (1, H) ->
     depth_image w s img = inr d -> im_size d = (1, H) /\ im_mode d = L) /\
  (im_size img = (1, 1) -> forall d, depth_image w s img <> inr d).
Proof.
  intros Htr Ht Hnet Hp Hs.
  assert (E : depth_image w s img =
    rbind (at_phase Postprocess
             (interpolate w {| shape := [1; 1; h; wd]; data := data prediction |}
                (snd (im_size img), fst (im_size img))))
          (fun resized =>
             rbind (at_phase Postprocess (normalize_array (squeeze resized)))
                   (fun depth_img => at_phase Postprocess (fromarray depth_img)))).
  { unfold depth_image. rewrite Htr, Hnet. simpl. rewrite Ht. simpl.
    unfold unsqueeze at 1. simpl. rewrite Hp. simpl.
    unfold unsqueeze. rewrite Hs. reflexivity. }
  rewrite E. unfold interpolate. simpl.
  split; [|split].
  - intros W d HW Hsz. rewrite Hsz. simpl.
    destruct (bicubic w _ 1 W) as [e|vals]; simpl; [discriminate|].
    unfold normalize_array, squeeze. simpl.
    destruct W as [|[|W]]; [lia|lia|]. simpl.
    destruct (depth_values vals) as [v|]; simpl; [|discriminate].
    now intros [= <-].
  - intros H d HH Hsz. rewrite Hsz. simpl.
    destruct (bicubic w _ H 1) as [e|vals]; simpl; [discriminate|].
    unfold normalize_array, squeeze. simpl.
    destruct H as [|[|H]]; [lia|lia|]. simpl.
    destruct (depth_values vals) as [v|]; simpl; [|discriminate].
    now intros [= <-].
  - intros Hsz d. rewrite Hsz. simpl.
    destruct (bicubic w _ 1 1) as [e|vals]; simpl; [discriminate|].
    unfold normalize_array, squeeze. simpl.
    destruct (depth_values vals) as [v|]; simpl; discriminate.
Qed.

(** X7: when the download of the network fails, [load_model] raises and
    leaves both globals as they were; the next call asks the provider
    again, and if that attempt works the handle is complete. *)
Theorem failed_fetch_is_retried (w : World) (s : state) (e : exn) :
  model s = None -> hub_load_model w (model_loads s) = inl e ->
  fst (load_model w s) = inl e /\
  model (snd (load_model w s)) = None /\
  transform (snd (load_model w s)) = transform s /\
  model_loads (snd (load_model w s)) = S (model_loads s) /\
  transform_loads (snd (load_model w s)) = transform_loads s /\
  forall n t,
    hub_load_model w (S (model_loads s)) = inr n ->
    model_to_device w (S (model_loads s)) = inr tt ->
    hub_load_transforms w (transform_loads s) = inr t ->
    load_model w (snd (load_model w s)) =
      (inr tt, {| model := Some n; transform := Some t;
                  model_loads := S (S (model_loads s));
                  transform_loads := S (transform_loads s) |}).
Proof.
  intros Hm He.
  assert (E : load_model w s =
              (inl e, {| model := None; transform := transform s;
                         model_loads := S (model_loads s);
                         transform_loads := transform_loads s |})).
  { unfold load_model. rewrite Hm. unfold mbind, call_hub_model. simpl.
    rewrite He, Hm. reflexivity. }
  rewrite E. simpl. repeat split; auto.
  intros n t Hn Hd Ht. unfold load_model. simpl.
  unfold mbind, call_hub_model, set_model, bind_device,
    call_hub_transforms, set_transform. simpl.
  rewrite Hn. simpl. rewrite Hd. simpl. rewrite Ht. reflexivity.
Qed.

(** X8: once [model] is set nothing changes the state any more: every
    request, valid or not, and every sequence of requests leaves the
    globals and the provider untouched. *)
Theorem loaded_handle_is_fixed {F : FloatOps} (w : World) (s : state)
    (n : network) :
  model s = Some n ->
  (forall r, snd (predict w r s) = s) /\
  (forall reqs, snd (serve w reqs s) = s).
Proof.
  intros Hm.
  assert (A : forall r, snd (predict w r s) = s).
  { intros r. destruct (predict_state_cases w r s) as [E|E]; [exact E|].
    rewrite E, (load_model_loaded w s Hm). reflexivity. }
  split; [exact A|].
  induction reqs as [|r rest IH]; [reflexivity|].
  now rewrite serve_cons_state, A.
Qed.

(** X9: a request without the file field, or whose bytes do not decode,
    is answered before line 33: it never triggers a load. *)
Theorem rejected_request_does_not_load {F : FloatOps} (w : World)
    (r : request) (s : state) :
  lookup_file "image" (files r) = None \/
  (exists f e, lookup_file "image" (files r) = Some f /\
               image_open w f = inl e) ->
  snd (predict w r s) = s /\
  (status (fst (predict w r s)) = 400 \/ status (fst (predict w r s)) = 500).
Proof.
  unfold predict, predict_try, ingest.
  intros [Hn|(f & e & Hf & He)].
  - rewrite Hn. simpl. auto.
  - rewrite Hf, He. simpl. auto.
Qed.

(** X10: when [load_model] returns normally from a state without a model,
    both globals are set and the provider was asked exactly once for the
    network and once for the transforms. *)
Theorem load_publishes_both (w : World) (s s' : state) :
  model s = None -> load_model w s = (inr tt, s') ->
  (exists n t, model s' = Some n /\ transform s' = Some t) /\
  model_loads s' = S (model_loads s) /\
  transform_loads s' = S (transform_loads s).
Proof.
  intros Hm. unfold load_model. rewrite Hm.
  unfold mbind, call_hub_model, set_model, bind_device,
    call_hub_transforms, set_transform. simpl.
  destruct (hub_load_model w (model_loads s)) as [e|n]; [discriminate|].
  destruct (model_to_device w (model_loads s)) as [e|[]]; [discriminate|].
  destruct (hub_load_transforms w (transform_loads s)) as [e|t];
    [discriminate|].
  intros [= <-]. simpl. split; [exists n, t; auto | auto].
Qed.

Lemma load_model_keeps_invariant (w : World) (s : state) :
  transform_loads s <= 1 /\
  (model s = None -> transform s = None /\ transform_loads s = 0) ->
  transform_loads (snd (load_model w s)) <= 1 /\
  (model (snd (load_model w s)) = None ->
   transform (snd (load_model w s)) = None /\
   transform_loads (snd (load_model w s)) = 0).
Proof.
  intros [Hle Hnone]. unfold load_model.
  destruct (model s) as [n|] eqn:Hm; simpl.
  { rewrite Hm. split; [exact Hle | discriminate]. }
  destruct (Hnone eq_refl) as [Ht H0].
  unfold mbind, call_hub_model, set_model, bind_device,
    call_hub_transforms, set_transform. simpl.
  destruct (hub_load_model w (model_loads s)) as [e|n]; simpl.
  { rewrite Hm. auto. }
  destruct (model_to_device w (model_loads s)) as [e|[]]; simpl.
  { split; [exact Hle | discriminate]. }
  rewrite H0.
  destruct (hub_load_transforms w 0) as [e|t]; simpl;
    (split; [lia | discriminate]).
Qed.

(** X11: in the life of a process, whatever the requests and whatever
    fails, the transforms are requested from the provider at most once,
    and as long as [model] is unset [transform] is unset too and the
    transforms were never requested. *)
Theorem transforms_requested_at_most_once {F : FloatOps} (w : World)
    (reqs : list request) :
  transform_loads (snd (serve w reqs cold)) <= 1 /\
  (model (snd (serve w reqs cold)) = None ->
   transform (snd (serve w reqs cold)) = None /\
   transform_loads (snd (serve w reqs cold)) = 0).
Proof.
  assert (G : forall s,
    transform_loads s <= 1 /\
    (model s = None -> transform s = None /\ transform_loads s = 0) ->
    transform_loads (snd (serve w reqs s)) <= 1 /\
    (model (snd (serve w reqs s)) = None ->
     transform (snd (serve w reqs s)) = None /\
     transform_loads (snd (serve w reqs s)) = 0)).
  { induction reqs as [|r rest IH]; intros s Inv; [exact Inv|].
    rewrite serve_cons_state. apply IH.
    destruct (predict_state_cases w r s) as [E|E]; rewrite E;
      [exact Inv | now apply load_model_keeps_invariant]. }
  apply G. simpl. auto.
Qed.

(** *** The theorems at the test doubles *)

Lemma depth_image_keeps_size_witness :
  depth_image (F := exact_ops) (good_world (rgb_image 3 2)) loaded
    (rgb_image 3 2)
    = inr {| im_mode := L; im_size := (3, 2);
             im_data := [0; 51; 102; 153; 204; 255]%Z |} /\
  im_size {| im_mode := L; im_size := (3, 2);
             im_data := [0; 51; 102; 153; 204; 255]%Z |}
    = im_size (rgb_image 3 2) /\
  im_mode {| im_mode := L; im_size := (3, 2);
             im_data := [0; 51; 102; 153; 204; 255]%Z |} = L.
Proof.
  assert (Hd : depth_image (F := exact_ops) (good_world (rgb_image 3 2))
                 loaded (rgb_image 3 2)
               = inr {| im_mode := L; im_size := (3, 2);
                        im_data := [0; 51; 102; 153; 204; 255]%Z |})
    by (vm_compute; reflexivity).
  assert (HW : 2 <= fst (im_size (rgb_image 3 2))) by (simpl; lia).
  assert (HH : 2 <= snd (im_size (rgb_image 3 2))) by (simpl; lia).
  split; [exact Hd|].
  exact (@depth_image_keeps_size exact_ops (good_world (rgb_image 3 2))
           loaded (rgb_image 3 2) _ small_transform small_net
           {| shape := [3; 2; 2]; data := ramp 12 |}
           {| shape := [1; 2; 2]; data := ramp 4 |} 2 2
           eq_refl eq_refl eq_refl eq_refl eq_refl HW HH Hd).
Defined.

Lemma unit_axis_images_witness :
  depth_image (F := exact_ops) (good_world (rgb_image 5 1)) loaded
    (rgb_image 5 1)
    = inr {| im_mode := L; im_size := (1, 5);
             im_data := [0; 63; 127; 191; 255]%Z |} /\
  im_size {| im_mode := L; im_size := (1, 5);
             im_data := [0; 63; 127; 191; 255]%Z |} = (1, 5) /\
  im_mode {| im_mode := L; im_size := (1, 5);
             im_data := [0; 63; 127; 191; 255]%Z |} = L.
Proof.
  assert (Hd : depth_image (F := exact_ops) (good_world (rgb_image 5 1))
                 loaded (rgb_image 5 1)
               = inr {| im_mode := L; im_size := (1, 5);
                        im_data := [0; 63; 127; 191; 255]%Z |})
    by (vm_compute; reflexivity).
  assert (HW : 2 <= 5) by lia.
  split; [exact Hd|].
  exact (proj1 (@unit_axis_images exact_ops (good_world (rgb_image 5 1))
                  loaded (rgb_image 5 1) small_transform small_net
                  {| shape := [3; 2; 2]; data := ramp 12 |}
                  {| shape := [1; 2; 2]; data := ramp 4 |} 2 2
                  eq_refl eq_refl eq_refl eq_refl eq_refl)
               5 _ HW eq_refl Hd).
Defined.

Lemma failed_fetch_is_retried_witness :
  model cold = None /\
  hub_load_model retry_world (model_loads cold)
    = inl {| exn_type := "URLError"; exn_msg := "timed out" |} /\
  model (snd (load_model retry_world cold)) = None /\
  load_model retry_world (snd (load_model retry_world cold))
    = (inr tt, {| model := Some small_net; transform := Some small_transform;
                  model_loads := 2; transform_loads := 1 |}).
Proof.
  pose proof (@failed_fetch_is_retried retry_world cold _ eq_refl eq_refl)
    as (_ & Hnone & _ & _ & _ & Hretry).
  split; [reflexivity|]. split; [reflexivity|]. split; [exact Hnone|].
  exact (Hretry small_net small_transform eq_refl eq_refl eq_refl).
Defined.

Lemma loaded_handle_is_fixed_witness :
  model loaded = Some small_net /\
  snd (predict (F := exact_ops) (good_world (rgb_image 4 3)) upload loaded)
    = loaded.
Proof.
  split; [reflexivity|].
  exact (proj1 (@loaded_handle_is_fixed exact_ops (good_world (rgb_image 4 3))
                  loaded small_net eq_refl) upload).
Defined.

Lemma rejected_request_does_not_load_witness :
  (exists f e, lookup_file "image" (files upload) = Some f /\
               image_open garbage_world f = inl e) /\
  snd (predict (F := exact_ops) garbage_world upload cold) = cold.
Proof.
  assert (H : exists f e, lookup_file "image" (files upload) = Some f /\
                          image_open garbage_world f = inl e).
  { exists some_file. eexists. split; reflexivity. }
  split; [exact H|].
  exact (proj1 (@rejected_request_does_not_load exact_ops garbage_world
                  upload cold (or_intror H))).
Defined.

Lemma load_publishes_both_witness :
  model cold = None /\
  load_model (good_world (rgb_image 4 3)) cold = (inr tt, loaded) /\
  (exists n t, model loaded = Some n /\ transform loaded = Some t) /\
  model_loads loaded = S (model_loads cold) /\
  transform_loads loaded = S (transform_loads cold).
Proof.
  split; [reflexivity|]. split; [reflexivity|].
  exact (@load_publishes_both (good_world (rgb_image 4 3)) cold loaded
           eq_refl eq_refl).
Defined.

End HandlerFacts.

(** ** Facts that hold under every schedule *)

Module ThreadFacts.

Import Numeric Midas MidasFacts.
Local Open Scope list_scope.
Local Open Scope nat_scope.

Lemma list_sum_set_nth {A} (f : A -> nat) (l : list A) (i : nat) (p p' : A) :
  nth_error l i = Some p ->
  list_sum (map f (set_nth i p' l)) + f p = list_sum (map f l) + f p'.
Proof.
  revert i. induction l as [|x l IH]; intros [|i]; simpl; try discriminate.
  - intros [= ->]. lia.
  - intros H. specialize (IH i H). lia.
Qed.

Lemma Forall_set_nth {A} (P : A -> Prop) (l : list A) (i : nat) (a : A) :
  Forall P l -> P a -> Forall P (set_nth i a l).
Proof.
  intros Hl Ha. revert i. induction Hl as [|x l Hx Hl IH]; intros [|i]; simpl;
    constructor; auto.
Qed.

Lemma step_thread_budget (w : World) (p : pc) (s : state) :
  model_loads (snd (step_thread w p s)) + may_load_model (fst (step_thread w p s))
    <= model_loads s + may_load_model p /\
  transform_loads (snd (step_thread w p s))
    + may_load_transforms (fst (step_thread w p s))
    <= transform_loads s + may_load_transforms p.
Proof.
  destruct p; simpl.
  - destruct (model s); simpl; lia.
  - unfold call_hub_model.
    destruct (hub_load_model w (model_loads s)); simpl; lia.
  - unfold bind_device.
    destruct (model_to_device w (Nat.pred (model_loads s))) as [e|u]; simpl; lia.
  - unfold call_hub_transforms.
    destruct (hub_load_transforms w (transform_loads s)); simpl; lia.
  - lia.
  - destruct (transform s); simpl; lia.
  - lia.
  - lia.
Qed.

Lemma step_budget (w : World) (i : nat) (c : process) :
  model_loads (globals (step w i c))
    + list_sum (map may_load_model (threads (step w i c)))
    <= model_loads (globals c) + list_sum (map may_load_model (threads c)) /\
  transform_loads (globals (step w i c))
    + list_sum (map may_load_transforms (threads (step w i c)))
    <= transform_loads (globals c)
       + list_sum (map may_load_transforms (threads c)).
Proof.
  unfold step. destruct (nth_error (threads c) i) as [p|] eqn:E; [|lia].
  pose proof (step_thread_budget w p (globals c)) as [B1 B2].
  destruct (step_thread w p (globals c)) as [p' s']. simpl in *.
  pose proof (list_sum_set_nth may_load_model _ _ p' E).
  pose proof (list_sum_set_nth may_load_transforms _ _ p' E).
  lia.
Qed.

Lemma run_budget (w : World) (sched : list nat) (c : process) :
  model_loads (globals (run w sched c))
    + list_sum (map may_load_model (threads (run w sched c)))
    <= model_loads (globals c) + list_sum (map may_load_model (threads c)) /\
  transform_loads (globals (run w sched c))
    + list_sum (map may_load_transforms (threads (run w sched c)))
    <= transform_loads (globals c)
       + list_sum (map may_load_transforms (threads c)).
Proof.
  revert c. induction sched as [|i sched IH]; intros c; [simpl; lia|].
  change (run w (i :: sched) c) with (run w sched (step w i c)).
  pose proof (IH (step w i c)). pose proof (step_budget w i c). lia.
Qed.

(** X13: under every schedule and whatever the provider answers, [n]
    first requests ask the provider for the network at most [n] times and
    for the transforms at most [n] times: each request loads at most
    once. *)
Theorem at_most_one_load_per_request (w : World) (n : nat) (sched : list nat) :
  model_loads (globals (run w sched (cold_process n))) <= n /\
  transform_loads (globals (run w sched (cold_process n))) <= n.
Proof.
  assert (I1 : forall k, list_sum (map may_load_model (repeat Line16 k)) = k)
    by (induction k; simpl; lia).
  assert (I2 : forall k,
             list_sum (map may_load_transforms (repeat Line16 k)) = k)
    by (induction k; simpl; lia).
  pose proof (run_budget w sched (cold_process n)) as [B1 B2].
  change (threads (cold_process n)) with (repeat Line16 n) in B1, B2.
  change (model_loads (globals (cold_process n))) with 0 in B1.
  change (transform_loads (globals (cold_process n))) with 0 in B2.
  rewrite I1 in B1. rewrite I2 in B2. lia.
Qed.

Ltac settle_handle :=
  repeat split; intros; simpl in *; try congruence; auto.

Lemma step_thread_keeps_handle (w : World) (p : pc) (s : state) :
  (model s <> None -> model (snd (step_thread w p s)) <> None) /\
  (transform s <> None -> transform (snd (step_thread w p s)) <> None) /\
  ((past_line19 p = true -> model s <> None) ->
   past_line19 (fst (step_thread w p s)) = true ->
   model (snd (step_thread w p s)) <> None) /\
  ((p = Served -> transform s <> None) ->
   fst (step_thread w p s) = Served ->
   transform (snd (step_thread w p s)) <> None).
Proof.
  destruct p; simpl.
  - destruct (model s) eqn:E; settle_handle.
  - unfold call_hub_model.
    destruct (hub_load_model w (model_loads s)); settle_handle.
  - unfold bind_device.
    destruct (model_to_device w (Nat.pred (model_loads s))); settle_handle.
  - unfold call_hub_transforms.
    destruct (hub_load_transforms w (transform_loads s)); settle_handle.
  - settle_handle.
  - destruct (transform s) eqn:E; settle_handle.
  - settle_handle.
  - settle_handle.
Qed.

Lemma run_keeps_handle (w : World) (sched : list nat) (c : process) :
  Forall (fun p => (past_line19 p = true -> model (globals c) <> None) /\
                   (p = Served -> transform (globals c) <> None))
         (threads c) ->
  Forall (fun p =>
            (past_line19 p = true -> model (globals (run w sched c)) <> None) /\
            (p = Served -> transform (globals (run w sched c)) <> None))
         (threads (run w sched c)).
Proof.
  revert c. induction sched as [|i sched IH]; intros c Inv; [exact Inv|].
  change (run w (i :: sched) c) with (run w sched (step w i c)).
  apply IH. unfold step.
  destruct (nth_error (threads c) i) as [p|] eqn:E; [|exact Inv].
  pose proof (step_thread_keeps_handle w p (globals c)) as (M & T & PM & PT).
  assert (Hp : (past_line19 p = true -> model (globals c) <> None) /\
               (p = Served -> transform (globals c) <> None)).
  { rewrite Forall_forall in Inv. apply Inv. eapply nth_error_In, E. }
  destruct (step_thread w p (globals c)) as [p' s']. simpl in *.
  apply Forall_set_nth.
  - eapply Forall_impl; [|exact Inv]. intros q [Q1 Q2]. split; auto.
  - destruct Hp as [H1 H2]. split; auto.
Qed.

(** X14: under every schedule, a request that went on past line 34 did so
    with both globals set; the globals, once set, are never cleared. *)
Theorem served_requests_saw_complete_handle
    (w : World) (n : nat) (sched : list nat) (i : nat) :
  nth_error (threads (run w sched (cold_process n))) i = Some Served ->
  model (globals (run w sched (cold_process n))) <> None /\
  transform (globals (run w sched (cold_process n))) <> None.
Proof.
  intros H.
  assert (Inv : Forall (fun p =>
            (past_line19 p = true -> model (globals (cold_process n)) <> None) /\
            (p = Served -> transform (globals (cold_process n)) <> None))
         (threads (cold_process n))).
  { unfold cold_process. simpl. apply Forall_forall. intros p Hp.
    apply repeat_spec in Hp. subst p. split; discriminate. }
  pose proof (run_keeps_handle w sched _ Inv) as R.
  rewrite Forall_forall in R.
  destruct (R Served (nth_error_In _ _ H)) as [R1 R2]. auto.
Qed.

Lemma served_requests_saw_complete_handle_witness :
  nth_error (threads (run (good_world (rgb_image 4 3)) [0; 0; 1; 1; 0; 0; 0; 0]
                        (cold_process 2))) 0 = Some Served /\
  model (globals (run (good_world (rgb_image 4 3)) [0; 0; 1; 1; 0; 0; 0; 0]
                    (cold_process 2))) <> None /\
  transform (globals (run (good_world (rgb_image 4 3)) [0; 0; 1; 1; 0; 0; 0; 0]
                        (cold_process 2))) <> None.
Proof.
  split; [reflexivity|].
  exact (@served_requests_saw_complete_handle (good_world (rgb_image 4 3)) 2
           [0; 0; 1; 1; 0; 0; 0; 0] 0 eq_refl).
Defined.

End ThreadFacts.
